(** * nzthermo: the numeric core of [src/lib/functional.cpp] and of the
    [nzt] namespace wrapped by [src/nzthermo/_ufunc.pyx]

    The C++ templates are instantiated at [T = double]: a sample is a
    binary64 value, modelled by Rocq's primitive [float], whose operations
    are specified by [SpecFloat] through [FloatAxioms].  Integers ([int],
    [size_t]) are [Z] with their conversions written out.  The functions of
    the C math library that have no counterpart on primitive floats ([exp],
    [log], [pow]) are the fields of the class [Libm]. *)

From Stdlib Require Import ZArith List Bool Lia Floats.
From Equations Require Import Equations.
Import ListNotations.

Set Warnings "-inexact-float".

(** ** Scalar semantics of C++ used by the sources *)

Module Cxx.

Local Open Scope Z_scope.

(** Conversion to [size_t] (64 bits, unsigned): reduction modulo [2^64]. *)
Definition to_size_t (z : Z) : Z := z mod 2 ^ 64.

(** Conversion to [int] (32 bits, two's complement; modular since C++20). *)
Definition to_int (z : Z) : Z := (z + 2 ^ 31) mod 2 ^ 32 - 2 ^ 31.

(** A floating value used as a condition: [if (x)] is [x != 0], so a NaN
    is true and both zeros are false. *)
Definition truthy (x : float) : bool := negb (x =? 0)%float.

Definition isnan (x : float) : bool := is_nan x.

Definition fabs (x : float) : float := abs x.

(** The integer [z] as a double, rounded to nearest even. *)
Definition double_of_Z (z : Z) (negative_zero : bool) : float :=
  SF2Prim (binary_normalize prec emax z 0 negative_zero).

(** [(T)N] for a [size_t N]. *)
Definition double_of_size_t (n : Z) : float := double_of_Z n false.

(** [ceil]: exact; a value in (-1, 0) gives the negative zero. *)
Definition ceil (x : float) : float :=
  match Prim2SF x with
  | S754_finite s m e =>
      if e <? 0 then
        let q := Z.shiftr (Zpos m) (- e) in
        let exact := Z.shiftl q (- e) =? Zpos m in
        double_of_Z (if s then - q else if exact then q else q + 1) s
      else x
  | _ => x
  end.

(** [(size_t)x] for a double [x]: truncation toward zero; [None] when the
    truncated value is not representable (the behaviour is undefined). *)
Definition size_t_of_double (x : float) : option Z :=
  match Prim2SF x with
  | S754_zero _ => Some 0
  | S754_finite s m e =>
      let t := if e <? 0 then Z.shiftr (Zpos m) (- e) else Z.shiftl (Zpos m) e in
      if s then (if t =? 0 then Some 0 else None)
      else if t <? 2 ^ 64 then Some t else None
  | _ => None
  end.

End Cxx.

(** The C math library: the three functions the sources call that are not
    primitive operations of binary64. *)
Class Libm : Type := {
  exp : float -> float;
  log : float -> float;
  pow : float -> float -> float
}.

(** ** [src/lib/functional.cpp] *)

Module libthermo.

Import Cxx.

Inductive direction : Type := increasing | decreasing.

Section Monotonic.
Local Open Scope float_scope.

(** The two loops of [monotonic], over the adjacent pairs. *)
Fixpoint no_decrease (x : list float) : bool :=
  match x with
  | a :: (b :: _) as tl => if b <? a then false else no_decrease tl
  | _ => true
  end.

Fixpoint no_increase (x : list float) : bool :=
  match x with
  | a :: (b :: _) as tl => if a <? b then false else no_increase tl
  | _ => true
  end.

Definition monotonic (x : list float) (d : direction) : bool :=
  match d with
  | increasing => no_decrease x
  | decreasing => no_increase x
  end.
End Monotonic.

Section Scalars.
Local Open Scope float_scope.

(** [M_PI] of [<cmath>]. *)
Definition M_PI : float := 3.14159265358979323846.

Definition degrees (radians : float) : float := radians * 180.0 / M_PI.

Definition radians (degrees : float) : float := degrees * M_PI / 180.0.

Definition norm (x x0 x1 : float) : float := (x - x0) / (x1 - x0).

Definition linear_interpolate (x x0 x1 y0 y1 : float) : float :=
  y0 + (x - x0) * (y1 - y0) / (x1 - x0).
End Scalars.

Section Bounds.
Local Open Scope Z_scope.
Context {T : Type}.
Variable cmp : T -> T -> bool.

(** The [while (len > 1)] loop of [lower_bound].  A read outside the
    array is undefined and gives [None]. *)
Equations? lower_bound_loop (array : list T) (value : T) (len idx : Z) : option Z
  by wf (Z.to_nat len) lt :=
  lower_bound_loop array value len idx with Z_gt_dec len 1 => {
    | left _ with nth_error array (Z.to_nat (to_size_t (idx + Z.quot len 2 - 1))) => {
        | Some a =>
            lower_bound_loop array value (len - Z.quot len 2)
              (to_size_t (idx + Z.b2z (cmp a value) * Z.quot len 2));
        | None => None };
    | right _ => Some idx }.
Proof.
  assert (1 <= Z.quot len 2) by (apply Z.quot_le_lower_bound; lia). lia.
Qed.

Definition lower_bound (array : list T) (N : Z) (value : T) : option Z :=
  lower_bound_loop array value N 0.

(** The [while (len > 1)] loop of [upper_bound]. *)
Equations? upper_bound_loop (array : list T) (value : T) (len idx : Z) : option Z
  by wf (Z.to_nat len) lt :=
  upper_bound_loop array value len idx with Z_gt_dec len 1 => {
    | left _ with nth_error array (Z.to_nat (to_size_t (idx + Z.quot len 2 - 1))) => {
        | Some a =>
            upper_bound_loop array value (len - Z.quot len 2)
              (to_size_t (idx + Z.b2z (negb (cmp value a)) * Z.quot len 2));
        | None => None };
    | right _ => Some idx }.
Proof.
  assert (1 <= Z.quot len 2) by (apply Z.quot_le_lower_bound; lia). lia.
Qed.

Definition upper_bound (array : list T) (N : Z) (value : T) : option Z :=
  upper_bound_loop array value N 0.
End Bounds.

(** [std::less_equal()] and [std::greater_equal()] on doubles. *)
Definition less_equal (a b : float) : bool := (a <=? b)%float.
Definition greater_equal (a b : float) : bool := (b <=? a)%float.

(** [size] is a [size_t]; the bounds take it as [const int N]. *)
Definition search_sorted (x : list float) (value : float) (size : Z) (inverted : bool)
  : option Z :=
  if inverted then lower_bound greater_equal x (to_int size) value
  else upper_bound less_equal x (to_int size) value.

(** [interpolate_z]: the index [i] is a [size_t]; a read outside [xp] or
    [fp] is undefined and gives [None]. *)
Definition interpolate_z (size : Z) (x : float) (xp fp : list float) : option float :=
  match lower_bound greater_equal xp (to_int size) x with
  | Some i =>
      if (i =? 0)%Z then nth_error fp 0
      else
        match nth_error xp (Z.to_nat (to_size_t (i - 1))), nth_error xp (Z.to_nat i),
              nth_error fp (Z.to_nat (to_size_t (i - 1))), nth_error fp (Z.to_nat i) with
        | Some xa, Some xb, Some fa, Some fb => Some (linear_interpolate x xa xb fa fb)
        | _, _, _, _ => None
        end
  | None => None
  end.

Definition heaviside (x h0 : float) : float :=
  if isnan x then nan
  else if (x =? 0)%float then h0
  else if (x <? 0)%float then 0.0%float
  else 1.0%float.

(** *** The explicit midpoint integrator *)

Section Rk2.
Local Open Scope float_scope.
Variable fn : float -> float -> float.

(** The [for] loop of [rk2]: [N] passes through its body. *)
Fixpoint rk2_loop (N : nat) (delta x0 y : float) : float :=
  match N with
  | O => y
  | S N' =>
      let k1 := delta * fn x0 y in
      let y := y + delta * fn (x0 + delta * 0.5) (y + k1 * 0.5) in
      let x0 := x0 + delta in
      rk2_loop N' delta x0 y
  end.

(** [None] stands for the undefined [(size_t)ceil(...)] of a quotient
    that is [-1] or less, [2^64] or more, infinite or NaN. *)
Definition rk2 (x0 x1 y step : float) : option float :=
  let delta := x1 - x0 in
  let abs_delta := fabs delta in
  if step <? abs_delta then
    match size_t_of_double (ceil (abs_delta / step)) with
    | Some N => Some (rk2_loop (Z.to_nat N) (delta / double_of_size_t N) x0 y)
    | None => None
    end
  else Some (rk2_loop 1 delta x0 y).
End Rk2.

(** *** The accelerated fixed-point iteration *)

Section FixedPoint.
Local Open Scope float_scope.
Context `{Libm} {Args : Type}.
Variable fn : float -> float -> Args -> float.
Variables (eps x0 : float) (args : Args).

(** One pass through the body of the [for] loop, up to its test: the
    estimate [p2] and the error [err] that is compared with [eps]. *)
Definition fixed_point_body (p0 : float) : float * float :=
  let p1 := fn p0 x0 args in
  let p2 := fn p1 x0 args in
  let delta := p2 - 2.0 * p1 + p0 in
  let p2 := if truthy delta then p0 - pow (p1 - p0) 2 / delta else p2 in
  let err := p2 in
  let err := if truthy p0 then fabs ((p2 - p0) / p0) else err in
  (p2, err).

(** The loop, with [remaining = max_iters - i].  Beside the value
    returned it reports how many times the body was run. *)
Fixpoint fixed_point_loop (remaining : nat) (i : nat) (p0 : float) : float * nat :=
  match remaining with
  | O => (nan, i)
  | S remaining' =>
      let '(p2, err) := fixed_point_body p0 in
      if err <? eps then (p2, S i) else fixed_point_loop remaining' (S i) p2
  end.

Definition fixed_point_run (max_iters : N) : float * nat :=
  fixed_point_loop (N.to_nat max_iters) 0 x0.

Definition fixed_point (max_iters : N) : float := fst (fixed_point_run max_iters).
End FixedPoint.

End libthermo.

(** ** The [nzt] namespace of [src/nzthermo/_ufunc.pyx] *)

Module nzt.

Import Cxx.
Local Open Scope float_scope.

(** *** Constants *)

Definition T0 : float := 273.15.
Definition E0 : float := 611.21.
Definition Cpd : float := 1004.6662184201462.
Definition Rd : float := 287.04749097718457.
Definition Rv : float := 461.52311572606084.
Definition Lv : float := 2501000.0.
Definition epsilon : float := Rd / Rv.
Definition P0 : float := 100000.0.

Section Formulas.
Context `{Libm}.

(** *** Core functions *)

Definition mixing_ratio (partial_press total_press : float) : float :=
  epsilon * partial_press / (total_press - partial_press).

Definition saturation_vapor_pressure (temperature : float) : float :=
  E0 * exp (17.67 * (temperature - T0) / (temperature - 29.65)).

Definition mixing_ratio_from_dewpoint (pressure dewpoint : float) : float :=
  mixing_ratio (saturation_vapor_pressure dewpoint) pressure.

Definition virtual_temperature (temperature mixing_ratio : float) : float :=
  temperature * ((mixing_ratio + epsilon) / (epsilon * (1 + mixing_ratio))).

Definition saturation_mixing_ratio (pressure temperature : float) : float :=
  let e := saturation_vapor_pressure temperature in
  epsilon * e / (pressure - e).

Definition vapor_pressure (pressure mixing_ratio : float) : float :=
  pressure * mixing_ratio / (epsilon + mixing_ratio).

(** [dewpoint(vapor_pressure)]. *)
Definition dewpoint (vapor_pressure : float) : float :=
  let ln := log (vapor_pressure / E0) in
  T0 + 243.5 * ln / (17.67 - ln).

(** The overload [dewpoint(pressure, mixing_ratio)]. *)
Definition dewpoint_p_r (pressure mixing_ratio : float) : float :=
  dewpoint (vapor_pressure pressure mixing_ratio).

Definition exner_function (pressure reference_pressure : float) : float :=
  pow (pressure / reference_pressure) (Rd / Cpd).

(** [exner_function<T>(pressure)]: the reference pressure defaults to [P0]. *)
Definition potential_temperature (pressure temperature : float) : float :=
  temperature / exner_function pressure P0.

Definition equivalent_potential_temperature (pressure temperature dewpoint : float)
  : float :=
  let r := saturation_mixing_ratio pressure dewpoint in
  let e := saturation_vapor_pressure dewpoint in
  let t_l := 56 + 1.0 / (1.0 / (dewpoint - 56) + log (temperature / dewpoint) / 800.0) in
  let th_l :=
    potential_temperature (pressure - e) temperature * pow (temperature / t_l) (0.28 * r) in
  th_l * exp (r * (1 + 0.448 * r) * (3036.0 / t_l - 1.78)).

Definition wet_bulb_potential_temperature (pressure temperature dewpoint : float)
  : float :=
  let theta_e := equivalent_potential_temperature pressure temperature dewpoint in
  if theta_e <=? 173.15 then theta_e
  else
    let x := theta_e / T0 in
    let x2 := x * x in
    let x3 := x2 * x in
    let x4 := x2 * x2 in
    let a := 7.101574 - 20.68208 * x + 16.11182 * x2 + 2.574631 * x3 - 5.205688 * x4 in
    let b := 1 - 3.552497 * x + 3.781782 * x2 - 0.6899655 * x3 - 0.5929340 * x4 in
    let theta_w := theta_e - exp (a / b) in
    theta_w.

(** *** Numerical methods *)

Fixpoint rk2_loop (fn : float -> float -> float) (N : nat) (delta x0 y : float)
  : float :=
  match N with
  | O => y
  | S N' =>
      let k1 := delta * fn x0 y in
      let y := y + delta * fn (x0 + delta * 0.5) (y + k1 * 0.5) in
      let x0 := x0 + delta in
      rk2_loop fn N' delta x0 y
  end.

Definition rk2 (fn : float -> float -> float) (x0 x1 y step : float) : option float :=
  let delta := x1 - x0 in
  let abs_delta := fabs delta in
  if step <? abs_delta then
    match size_t_of_double (ceil (abs_delta / step)) with
    | Some N => Some (rk2_loop fn (Z.to_nat N) (delta / double_of_size_t N) x0 y)
    | None => None
    end
  else Some (rk2_loop fn 1 delta x0 y).

Section FixedPoint.
Variable fn : float -> float -> float -> float -> float.
Variables x0 x1 x2 eps : float.

Definition fixed_point_body (p0 : float) : float * float :=
  let p1 := fn p0 x0 x1 x2 in
  let p2 := fn p1 x0 x1 x2 in
  let delta := p2 - 2.0 * p1 + p0 in
  let p2 := if truthy delta then p0 - pow (p1 - p0) 2 / delta else p2 in
  let err := p2 in
  let err := if truthy p0 then fabs ((p2 - p0) / p0) else err in
  (p2, err).

Fixpoint fixed_point_loop (remaining : nat) (i : nat) (p0 : float) : float * nat :=
  match remaining with
  | O => (nan, i)
  | S remaining' =>
      let '(p2, err) := fixed_point_body p0 in
      if err <? eps then (p2, S i) else fixed_point_loop remaining' (S i) p2
  end.

Definition fixed_point_run (max_iters : N) : float * nat :=
  fixed_point_loop (N.to_nat max_iters) 0 x0.

Definition fixed_point (max_iters : N) : float := fst (fixed_point_run max_iters).
End FixedPoint.

(** *** Moist adiabatic processes *)

Definition moist_lapse_solver (pressure temperature : float) : float :=
  let r := saturation_mixing_ratio pressure temperature in
  (Rd * temperature + Lv * r)
  / (Cpd + (Lv * Lv * r * epsilon / (Rd * temperature * temperature)))
  / pressure.

Definition moist_lapse (pressure next_pressure temperature step : float)
  : option float :=
  rk2 moist_lapse_solver pressure next_pressure temperature step.

(** *** LCL *)

Definition lcl_solver (pressure reference_pressure temperature mixing_ratio : float)
  : float :=
  let td := dewpoint_p_r pressure mixing_ratio in
  let p := reference_pressure * pow (td / temperature) (1.0 / (Rd / Cpd)) in
  if isnan p then pressure else p.

Definition lcl_pressure (pressure temperature dewpoint eps : float) (max_iters : N)
  : float :=
  let r := mixing_ratio (saturation_vapor_pressure dewpoint) pressure in
  fixed_point lcl_solver pressure temperature r eps max_iters.

Definition lcl (pressure temperature dewpoint eps : float) (max_iters : N)
  : float * float :=
  let r := mixing_ratio (saturation_vapor_pressure dewpoint) pressure in
  let lcl_p := fixed_point lcl_solver pressure temperature r eps max_iters in
  let lcl_t := dewpoint_p_r lcl_p r in
  (lcl_p, lcl_t).

(** *** Wet bulb temperature *)

Definition wet_bulb_temperature
  (pressure temperature dewpoint eps step : float) (max_iters : N) : option float :=
  let '(lcl_p, lcl_t) := lcl pressure temperature dewpoint eps max_iters in
  moist_lapse lcl_p pressure lcl_t step.
End Formulas.

End nzt.

(** ** The elementwise operations of [src/nzthermo/_ufunc.pyx]

    Each [@cython.ufunc] acts on one element; [C] there is [nzt] here. *)

Module ufunc.

Local Open Scope float_scope.

Section Ufuncs.
Context `{Libm}.

Definition saturation_vapor_pressure (temperature : float) : float :=
  nzt.saturation_vapor_pressure temperature.

Definition virtual_temperature (temperature mixing_ratio : float) : float :=
  nzt.virtual_temperature temperature mixing_ratio.

Definition saturation_mixing_ratio (pressure temperature : float) : float :=
  nzt.saturation_mixing_ratio pressure temperature.

Definition dewpoint (vapor_pressure : float) : float :=
  nzt.dewpoint vapor_pressure.

Definition potential_temperature (pressure temperature : float) : float :=
  nzt.potential_temperature pressure temperature.

Definition equivalent_potential_temperature (pressure temperature dewpoint : float)
  : float :=
  nzt.equivalent_potential_temperature pressure temperature dewpoint.

Definition wet_bulb_potential_temperature (pressure temperature dewpoint : float)
  : float :=
  nzt.wet_bulb_potential_temperature pressure temperature dewpoint.

Definition wet_bulb_temperature (pressure temperature dewpoint : float) : option float :=
  let max_iter : N := 50%N in
  let eps := 0.1 in
  let step := 1000.0 in
  nzt.wet_bulb_temperature pressure temperature dewpoint eps step max_iter.

Definition lcl_pressure (pressure temperature dewpoint : float) : float :=
  let max_iter : N := 50%N in
  let eps := 0.1 in
  nzt.lcl_pressure pressure temperature dewpoint eps max_iter.

Definition lcl (pressure temperature dewpoint : float) : float * float :=
  let max_iter : N := 50%N in
  let eps := 0.1 in
  let lcl := nzt.lcl pressure temperature dewpoint eps max_iter in
  (fst lcl, snd lcl).
End Ufuncs.

End ufunc.

(** * Vocabulary of the properties *)

(** A math library that answers only the arguments for which the result
    is fixed exactly (C, Annex F: [exp(0) = 1], [log(1) = 0],
    [pow(1, y) = 1], [pow(x, 0) = 1]) and gives NaN elsewhere.  It lets
    closed examples run. *)
Definition libm_exact_cases : Libm := {|
  exp := fun x => if (x =? 0)%float then 1%float else nan;
  log := fun x => if (x =? 1)%float then 0%float else nan;
  pow := fun x y =>
    if (x =? 1)%float then 1%float else if (y =? 0)%float then 1%float else nan
|}.

Section SearchVocabulary.
Context {T : Type}.
Variable cmp : T -> T -> bool.

(** The test [cmp value] is monotone along the array: once it holds, it
    holds at every later position. *)
Definition monotone_test (array : list T) (value : T) : Prop :=
  forall (i j : nat) (a b : T),
    (i <= j)%nat -> nth_error array i = Some a -> nth_error array j = Some b ->
    cmp value a = true -> cmp value b = true.
End SearchVocabulary.

(** No element of the profile is a NaN. *)
Definition no_nan (x : list float) : bool := forallb (fun a => negb (Cxx.isnan a)) x.

Section FixedPointVocabulary.
Local Open Scope float_scope.
Context `{Libm} {Args : Type}.
Variable fn : float -> float -> Args -> float.
Variables (x0 : float) (args : Args).

(** The estimate [p0] that enters pass [k] of the loop (counted from 0)
    when no earlier pass has returned. *)
Definition estimate (k : nat) : float :=
  Nat.iter k (fun p => fst (libthermo.fixed_point_body fn x0 args p)) x0.

(** The error that pass [k] compares with [eps]. *)
Definition pass_error (k : nat) : float :=
  snd (libthermo.fixed_point_body fn x0 args (estimate k)).
End FixedPointVocabulary.

Section FormulaVocabulary.
Local Open Scope float_scope.
Context `{Libm}.

(** The exponent of the correction of [wet_bulb_potential_temperature]: a
    quotient of two polynomials of degree 4 in [x]. *)
Definition theta_w_rational (x : float) : float :=
  let x2 := x * x in
  let x3 := x2 * x in
  let x4 := x2 * x2 in
  (7.101574 - 20.68208 * x + 16.11182 * x2 + 2.574631 * x3 - 5.205688 * x4)
  / (1 - 3.552497 * x + 3.781782 * x2 - 0.6899655 * x3 - 0.5929340 * x4).

(** The pressure that [lcl_solver] computes before its NaN test: the
    reference pressure times a power of (trial dewpoint / temperature). *)
Definition rescaled_pressure
  (pressure reference_pressure temperature mixing_ratio : float) : float :=
  reference_pressure
  * pow (nzt.dewpoint_p_r pressure mixing_ratio / temperature) (1.0 / (nzt.Rd / nzt.Cpd)).
End FormulaVocabulary.

(** The mantissa shared by the binary64 values 0.5, 1 and 2: [2^52]. *)
Definition one_m : positive := 4503599627370496.
Definition SF_half : spec_float := S754_finite false one_m (-53).
Definition SF_one : spec_float := S754_finite false one_m (-52).
Definition SF_two : spec_float := S754_finite false one_m (-51).

Section Rk2Vocabulary.
Local Open Scope float_scope.
Import Cxx.
Variable fn : float -> float -> float.

(** One substep of the midpoint rule, in the words of the specification:
    [k1 = delta * fn(x, y)]; [y <- y + delta * fn(x + delta/2, y + k1/2)];
    [x <- x + delta]. *)
Definition midpoint_substep (delta : float) (xy : float * float) : float * float :=
  let '(x, y) := xy in
  let k1 := delta * fn x y in
  (x + delta, y + delta * fn (x + delta / 2) (y + k1 / 2)).

(** The integration, in the words of the specification: one step when
    [|x1 - x0| <= step]; otherwise [N = ceil(|x1 - x0| / step)] equal
    substeps of size [(x1 - x0) / N]. *)
Definition integrate (x0 x1 y step : float) : option float :=
  if fabs (x1 - x0) <=? step then
    Some (snd (midpoint_substep (x1 - x0) (x0, y)))
  else
    match size_t_of_double (ceil (fabs (x1 - x0) / step)) with
    | Some N =>
        Some (snd (Nat.iter (Z.to_nat N)
                     (midpoint_substep ((x1 - x0) / double_of_size_t N)) (x0, y)))
    | None => None
    end.

(** The integration, in the order of the specification's sentence: if
    [|x1 - x0|] exceeds the step hint, [N = ceil(|x1 - x0| / step)] equal
    substeps of size [(x1 - x0) / N]; otherwise one step. *)
Definition integrate_exceeds (x0 x1 y step : float) : option float :=
  if step <? fabs (x1 - x0) then
    match size_t_of_double (ceil (fabs (x1 - x0) / step)) with
    | Some N =>
        Some (snd (Nat.iter (Z.to_nat N)
                     (midpoint_substep ((x1 - x0) / double_of_size_t N)) (x0, y)))
    | None => None
    end
  else Some (snd (midpoint_substep (x1 - x0) (x0, y))).
End Rk2Vocabulary.

(** A double that is neither infinite nor NaN. *)
Definition finite (x : float) : bool :=
  match Prim2SF x with
  | S754_zero _ | S754_finite _ _ _ => true
  | _ => false
  end.

(** * Properties *)

(** ** Integer conversions *)

Section Conversions.
Local Open Scope Z_scope.
Import Cxx.

Lemma half_bounds len : 1 < len -> 1 <= Z.quot len 2 /\ 2 * Z.quot len 2 <= len.
Proof.
  intros Hlen. rewrite Z.quot_div_nonneg by lia.
  pose proof (Z.div_mod len 2 ltac:(lia)).
  pose proof (Z.mod_pos_bound len 2 ltac:(lia)). lia.
Qed.

Lemma to_size_t_small z : 0 <= z < 2 ^ 64 -> to_size_t z = z.
Proof. intros Hz. unfold to_size_t. apply Z.mod_small. exact Hz. Qed.

Lemma to_int_small z : - 2 ^ 31 <= z < 2 ^ 31 -> to_int z = z.
Proof. intros Hz. unfold to_int. rewrite Z.mod_small; lia. Qed.

Lemma to_int_le z : 0 <= z -> to_int z <= z.
Proof.
  intros Hz. unfold to_int.
  destruct (Z_lt_dec z (2 ^ 31)).
  - rewrite Z.mod_small; lia.
  - pose proof (Z.mod_pos_bound (z + 2 ^ 31) (2 ^ 32) ltac:(lia)). lia.
Qed.

Lemma to_int_lt z : to_int z < 2 ^ 31.
Proof.
  unfold to_int.
  pose proof (Z.mod_pos_bound (z + 2 ^ 31) (2 ^ 32) ltac:(lia)). lia.
Qed.
End Conversions.

(** ** The order of binary64 *)

Section FloatOrder.
Local Open Scope Z_scope.

Lemma SFcompare_antisym a b :
  SFcompare b a = option_map CompOpp (SFcompare a b).
Proof.
  destruct a as [[]|[]| |[] ma ea], b as [[]|[]| |[] mb eb]; simpl; try reflexivity.
  all: rewrite (Z.compare_antisym ea eb);
    destruct (ea ?= eb); simpl; try reflexivity.
  all: rewrite !Pos.compare_cont_spec; simpl; rewrite (Pos.compare_antisym ma mb);
    destruct (ma ?= mb)%positive; reflexivity.
Qed.

Lemma SFcompare_refl a : a <> S754_nan -> SFcompare a a = Some Eq.
Proof.
  destruct a as [[]|[]| |[] m e]; simpl; intros Ha; try reflexivity; try congruence.
  all: rewrite Z.compare_refl, Pos.compare_cont_spec, Pos.compare_refl; reflexivity.
Qed.

Lemma SFcompare_defined a b :
  a <> S754_nan -> b <> S754_nan -> SFcompare a b <> None.
Proof.
  destruct a as [[]|[]| |[] ma ea], b as [[]|[]| |[] mb eb]; simpl; congruence.
Qed.

Lemma SFleb_trans a b c :
  SFleb a b = true -> SFleb b c = true -> SFleb a c = true.
Proof.
  unfold SFleb.
  destruct a as [[]|[]| |[] ma ea], b as [[]|[]| |[] mb eb], c as [[]|[]| |[] mc ec];
    simpl; try reflexivity; try discriminate.
  all: rewrite ?Pos.compare_cont_spec; simpl.
  all: destruct (Z.compare_spec ea eb); destruct (Z.compare_spec eb ec);
    destruct (Z.compare_spec ea ec); try lia; try reflexivity; try discriminate; subst.
  all: destruct (Pos.compare_spec ma mb); destruct (Pos.compare_spec mb mc);
    destruct (Pos.compare_spec ma mc); simpl; try lia; try reflexivity; try discriminate.
Qed.

Local Open Scope float_scope.

Lemma is_nan_spec x : is_nan x = false <-> Prim2SF x <> S754_nan.
Proof.
  unfold is_nan. rewrite eqb_spec. unfold SFeqb. split.
  - intros Hx Hnan. rewrite Hnan in Hx. discriminate.
  - intros Hx. rewrite SFcompare_refl by exact Hx. reflexivity.
Qed.

Lemma leb_trans a b c : (a <=? b) = true -> (b <=? c) = true -> (a <=? c) = true.
Proof. rewrite !leb_spec. apply SFleb_trans. Qed.

(** Between two numbers, "not [v <= a]" is [a < v]. *)
Lemma leb_ltb_total a v :
  is_nan a = false -> is_nan v = false -> (a <? v) = negb (v <=? a).
Proof.
  rewrite !is_nan_spec, ltb_spec, leb_spec. intros Ha Hv.
  unfold SFltb, SFleb. rewrite (SFcompare_antisym (Prim2SF a) (Prim2SF v)).
  pose proof (SFcompare_defined _ _ Ha Hv) as Hd.
  destruct (SFcompare (Prim2SF a) (Prim2SF v)) as [[]|]; simpl; congruence.
Qed.
End FloatOrder.

(** ** NaN *)

Section NaN.
Local Open Scope float_scope.

Lemma is_nan_true_iff x : is_nan x = true <-> x = nan.
Proof.
  split.
  - intros Hx. destruct (Prim2SF x) eqn:Hsf.
    1, 2, 4: assert (Hn : is_nan x = false) by (apply is_nan_spec; congruence); congruence.
    rewrite <- (SF2Prim_Prim2SF x), Hsf. reflexivity.
  - intros ->. reflexivity.
Qed.

Lemma is_nan_false_iff x : is_nan x = false <-> x <> nan.
Proof.
  rewrite <- is_nan_true_iff. destruct (is_nan x); split; congruence.
Qed.

(** A comparison with a NaN is false. *)
Lemma ltb_nan_l a b : is_nan a = true -> (a <? b) = false.
Proof.
  intros Ha. apply is_nan_true_iff in Ha. subst a.
  rewrite ltb_spec. reflexivity.
Qed.

Lemma ltb_nan_r a b : is_nan b = true -> (a <? b) = false.
Proof.
  intros Hb. apply is_nan_true_iff in Hb. subst b.
  rewrite ltb_spec. change (Prim2SF nan) with S754_nan.
  unfold SFltb. destruct (Prim2SF a) as [[]|[]| |[] m e]; reflexivity.
Qed.
End NaN.

(** ** Exact operations of binary64

    Dividing by 1 changes nothing, and multiplying by 0.5 is dividing by 2:
    both are read off the specification of the operations. *)

Section ExactOperations.
Local Open Scope Z_scope.

Lemma bounded_cases m e :
  bounded prec emax m e = true ->
  e <= 971 /\ ((Zpos (digits2_pos m) = 53 /\ -1074 <= e) \/ (e = -1074 /\ Zpos (digits2_pos m) <= 53)).
Proof.
  unfold bounded, canonical_mantissa, fexp, SpecFloat.emin, prec, emax.
  intros Hb. apply andb_true_iff in Hb as [Hc He].
  apply Z.eqb_eq in Hc. apply Z.leb_le in He. lia.
Qed.

Lemma binary_round_aux_canonical s m e :
  bounded prec emax m e = true ->
  binary_round_aux prec emax s (Zpos m) e loc_Exact = S754_finite s m e.
Proof.
  intros Hb. pose proof (bounded_cases m e Hb) as [He Hd].
  unfold binary_round_aux, shr_fexp. cbn [Zdigits2 shr_record_of_loc].
  assert (Hs : fexp prec emax (Zpos (digits2_pos m) + e) - e = 0).
  { unfold fexp, SpecFloat.emin, prec, emax. lia. }
  rewrite Hs. cbn [shr loc_of_shr_record shr_m shr_r shr_s round_nearest_even Zdigits2 shr_record_of_loc]. rewrite Hs. cbn [shr shr_m].
  assert (Hle : (e <=? emax - prec) = true) by (apply Z.leb_le; unfold emax, prec; lia).
  rewrite Hle. reflexivity.
Qed.


Lemma div_eucl_unique a b q r : 0 <= r < b -> a = b * q + r -> Z.div_eucl a b = (q, r).
Proof.
  intros Hr Ha.
  pose proof (Z_div_mod a b ltac:(lia)) as Hdm.
  destruct (Z.div_eucl a b) as [q' r']. destruct Hdm as [Heq Hr'].
  assert (q' = q) by nia. subst q'. f_equal. lia.
Qed.

Lemma SFdiv_core_binary_eval m1 e1 m2 e2 e' k q r :
  Z.min (fexp prec emax (Zdigits2 (Zpos m1) + e1 - (Zdigits2 (Zpos m2) + e2))) (e1 - e2) = e' ->
  e1 - e2 - e' = k -> 0 <= k ->
  Zpos m1 * 2 ^ k = Zpos m2 * q + r -> 0 <= r < Zpos m2 ->
  SFdiv_core_binary prec emax (Zpos m1) e1 (Zpos m2) e2 = (q, e', new_location (Zpos m2) r).
Proof.
  intros He' Hk Hk0 Hq Hr. unfold SFdiv_core_binary.
  change IntDef.Z.min with Z.min. rewrite He', Hk.
  assert (Hm : match k with
               | 0 => Zpos m1
               | Zpos _ => Z.shiftl (Zpos m1) k
               | Zneg _ => 0
               end = Zpos m1 * 2 ^ k).
  { destruct k as [| p | p]; [simpl; lia | apply Z.shiftl_mul_pow2; lia | lia]. }
  change IntDef.Z.shiftl with Z.shiftl. rewrite Hm.
  change IntDef.Z.div_eucl with Z.div_eucl.
  rewrite (div_eucl_unique _ _ q r Hr Hq). reflexivity.
Qed.

Lemma binary_round_aux_double s m e :
  bounded prec emax m e = true -> Zpos (digits2_pos m) = 53 -> -1074 < e ->
  binary_round_aux prec emax s (Zpos m~0) (e - 1) loc_Exact = S754_finite s m e.
Proof.
  intros Hb Hd He. pose proof (bounded_cases m e Hb) as [Hmax _].
  unfold binary_round_aux, shr_fexp. cbn [Zdigits2 shr_record_of_loc digits2_pos].
  assert (Hs : fexp prec emax (Zpos (Pos.succ (digits2_pos m)) + (e - 1)) - (e - 1) = 1).
  { rewrite Pos2Z.inj_succ. unfold fexp, SpecFloat.emin, prec, emax. lia. }
  rewrite Hs.
  cbn [shr iter_pos shr_1 loc_of_shr_record shr_m shr_r shr_s round_nearest_even
       Zdigits2 shr_record_of_loc orb].
  assert (Hs' : fexp prec emax (Zpos (digits2_pos m) + (e - 1 + 1)) - (e - 1 + 1) = 0).
  { unfold fexp, SpecFloat.emin, prec, emax. lia. }
  rewrite Hs'. cbn [shr shr_m].
  assert (Hle : (e - 1 + 1 <=? emax - prec) = true) by (apply Z.leb_le; unfold emax, prec; lia).
  rewrite Hle. f_equal. lia.
Qed.

Lemma SF64div_one sf :
  valid_binary sf = true -> SF64div sf SF_one = sf.
Proof.
  destruct sf as [s | s | | s m e]; intros Hb; try (destruct s; reflexivity); [reflexivity |].
  cbn [valid_binary SpecFloat.valid_binary] in Hb.
  pose proof (bounded_cases m e Hb) as [He Hd].
  unfold SF64div, SF_one, SFdiv. rewrite xorb_false_r.
  assert (Hcase : (Zpos (digits2_pos m) = 53 /\ -1074 < e) \/ e = -1074) by lia.
  destruct Hcase as [[Hd53 Hlow] | ->].
  - rewrite (SFdiv_core_binary_eval m e one_m (-52) (e - 1) 53 (Zpos m~0) 0).
    + apply binary_round_aux_double; assumption.
    + cbn [Zdigits2]. change (Zpos (digits2_pos one_m)) with 53.
      rewrite Hd53. unfold fexp, SpecFloat.emin, prec, emax. lia.
    + lia.
    + lia.
    + unfold one_m. rewrite Pos2Z.inj_xO. change (2 ^ 53) with 9007199254740992. lia.
    + unfold one_m. lia.
  - rewrite (SFdiv_core_binary_eval m (-1074) one_m (-52) (-1074) 52 (Zpos m) 0).
    + apply binary_round_aux_canonical; assumption.
    + cbn [Zdigits2]. change (Zpos (digits2_pos one_m)) with 53.
      unfold fexp, SpecFloat.emin, prec, emax. lia.
    + lia.
    + lia.
    + unfold one_m. change (2 ^ 52) with 4503599627370496. lia.
    + unfold one_m. lia.
Qed.

Lemma div_one (x : float) : (x / 1)%float = x.
Proof.
  apply Prim2SF_inj. rewrite div_spec.
  change (Prim2SF 1) with SF_one.
  apply SF64div_one. apply Prim2SF_valid.
Qed.

Lemma mul_one_m m : (m * one_m)%positive = Pos.iter xO m 52.
Proof. rewrite Pos.mul_comm. reflexivity. Qed.

Lemma digits2_pos_shift52 m :
  Zpos (digits2_pos (Pos.iter xO m 52)) = Zpos (digits2_pos m) + 52.
Proof.
  cbn [Pos.iter digits2_pos]. rewrite !Pos2Z.inj_succ. lia.
Qed.

Lemma shr_fexp_mul_half_normal m e :
  Zpos (digits2_pos m) = 53 -> -1074 < e ->
  shr_fexp prec emax (Zpos (m * one_m)) (e + -53) loc_Exact
  = ({| shr_m := Zpos m; shr_r := false; shr_s := false |}, e - 1).
Proof.
  intros Hd He. unfold shr_fexp. rewrite mul_one_m.
  cbn [Zdigits2]. rewrite digits2_pos_shift52, Hd.
  assert (Hs : fexp prec emax (53 + 52 + (e + -53)) - (e + -53) = 52).
  { unfold fexp, SpecFloat.emin, prec, emax. lia. }
  rewrite Hs. unfold shr. f_equal; first [reflexivity | lia].
Qed.

Lemma shr_fexp_mul_half_tiny m :
  Zpos (digits2_pos m) <= 53 ->
  shr_fexp prec emax (Zpos (m * one_m)) (-1074 + -53) loc_Exact
  = (shr_1 {| shr_m := Zpos m; shr_r := false; shr_s := false |}, -1074).
Proof.
  intros Hd. unfold shr_fexp. rewrite mul_one_m.
  cbn [Zdigits2]. rewrite digits2_pos_shift52.
  assert (Hs : fexp prec emax (Zpos (digits2_pos m) + 52 + (-1074 + -53)) - (-1074 + -53) = 53).
  { unfold fexp, SpecFloat.emin, prec, emax. lia. }
  rewrite Hs. unfold shr. reflexivity.
Qed.

Lemma bounded_intro m e :
  fexp prec emax (Zpos (digits2_pos m) + e) = e -> e <= 971 -> bounded prec emax m e = true.
Proof.
  intros Hc He. unfold bounded, canonical_mantissa.
  apply andb_true_iff. split; [apply Z.eqb_eq; exact Hc | apply Z.leb_le; exact He].
Qed.

Lemma bounded_pred m e :
  bounded prec emax m e = true -> Zpos (digits2_pos m) = 53 -> -1074 < e ->
  bounded prec emax m (e - 1) = true.
Proof.
  intros Hb Hd He. pose proof (bounded_cases m e Hb) as [Hmax _].
  apply bounded_intro; [| lia].
  rewrite Hd. unfold fexp, SpecFloat.emin, prec, emax. lia.
Qed.

Lemma SF64mul_half_normal s m e :
  bounded prec emax m e = true -> Zpos (digits2_pos m) = 53 -> -1074 < e ->
  SF64mul (S754_finite s m e) SF_half = S754_finite s m (e - 1).
Proof.
  intros Hb Hd He. pose proof (bounded_cases m e Hb) as [Hmax _].
  unfold SF64mul, SF_half, SFmul, binary_round_aux. rewrite xorb_false_r.
  rewrite (shr_fexp_mul_half_normal m e Hd He).
  cbn [loc_of_shr_record shr_m shr_r shr_s round_nearest_even].
  unfold shr_fexp. cbn [Zdigits2 shr_record_of_loc]. rewrite Hd.
  assert (Hs : fexp prec emax (53 + (e - 1)) - (e - 1) = 0).
  { unfold fexp, SpecFloat.emin, prec, emax. lia. }
  rewrite Hs. cbn [shr shr_m].
  assert (Hle : (e - 1 <=? emax - prec) = true) by (apply Z.leb_le; unfold emax, prec; lia).
  rewrite Hle. reflexivity.
Qed.

Lemma SF64div_two_normal s m e :
  bounded prec emax m e = true -> Zpos (digits2_pos m) = 53 -> -1074 < e ->
  SF64div (S754_finite s m e) SF_two = S754_finite s m (e - 1).
Proof.
  intros Hb Hd He. pose proof (bounded_pred m e Hb Hd He) as Hb'.
  unfold SF64div, SF_two, SFdiv. rewrite xorb_false_r.
  destruct (Z.eq_dec e (-1073)) as [-> | Hne].
  - rewrite (SFdiv_core_binary_eval m (-1073) one_m (-51) (-1074) 52 (Zpos m) 0).
    + apply (binary_round_aux_canonical s m (-1074)). exact Hb'.
    + cbn [Zdigits2]. change (Zpos (digits2_pos one_m)) with 53.
      rewrite Hd. unfold fexp, SpecFloat.emin, prec, emax. lia.
    + lia.
    + lia.
    + unfold one_m. change (2 ^ 52) with 4503599627370496. lia.
    + unfold one_m. lia.
  - rewrite (SFdiv_core_binary_eval m e one_m (-51) (e - 1 - 1) 53 (Zpos m~0) 0).
    + apply (binary_round_aux_double s m (e - 1)); [exact Hb' | exact Hd | lia].
    + cbn [Zdigits2]. change (Zpos (digits2_pos one_m)) with 53.
      rewrite Hd. unfold fexp, SpecFloat.emin, prec, emax. lia.
    + lia.
    + lia.
    + unfold one_m. rewrite Pos2Z.inj_xO. change (2 ^ 53) with 9007199254740992. lia.
    + unfold one_m. lia.
Qed.

Lemma shr_fexp_tiny q l :
  Zdigits2 q <= 52 ->
  shr_fexp prec emax q (-1074) l = (shr_record_of_loc q l, -1074).
Proof.
  intros Hd. unfold shr_fexp.
  assert (Hs : fexp prec emax (Zdigits2 q + -1074) - -1074 = 0).
  { unfold fexp, SpecFloat.emin, prec, emax. lia. }
  rewrite Hs. reflexivity.
Qed.

Lemma SF64_half_tiny s m :
  bounded prec emax m (-1074) = true ->
  SF64mul (S754_finite s m (-1074)) SF_half = SF64div (S754_finite s m (-1074)) SF_two.
Proof.
  intros Hb. pose proof (bounded_cases m (-1074) Hb) as [_ Hd].
  assert (Hd53 : Zpos (digits2_pos m) <= 53) by lia. clear Hd.
  unfold SF64mul, SF64div, SF_half, SF_two, SFmul, SFdiv.
  destruct m as [p | p |].
  - (* odd mantissa: half an ulp is lost *)
    cbn [digits2_pos] in Hd53. rewrite Pos2Z.inj_succ in Hd53.
    rewrite (SFdiv_core_binary_eval p~1 (-1074) one_m (-51) (-1074) 51 (Zpos p)
               2251799813685248).
    + change (new_location (Zpos one_m) 2251799813685248) with (loc_Inexact Eq).
      unfold binary_round_aux.
      rewrite (shr_fexp_mul_half_tiny p~1) by (cbn [digits2_pos]; lia).
      rewrite (shr_fexp_tiny (Zpos p)) by (cbn [Zdigits2]; lia).
      reflexivity.
    + cbn [Zdigits2]. change (Zpos (digits2_pos one_m)) with 53.
      cbn [digits2_pos]. rewrite Pos2Z.inj_succ.
      unfold fexp, SpecFloat.emin, prec, emax. lia.
    + lia.
    + lia.
    + unfold one_m. rewrite Pos2Z.inj_xI. change (2 ^ 51) with 2251799813685248. lia.
    + unfold one_m. lia.
  - (* even mantissa: the quotient is exact *)
    cbn [digits2_pos] in Hd53. rewrite Pos2Z.inj_succ in Hd53.
    rewrite (SFdiv_core_binary_eval p~0 (-1074) one_m (-51) (-1074) 51 (Zpos p) 0).
    + change (new_location (Zpos one_m) 0) with loc_Exact.
      unfold binary_round_aux.
      rewrite (shr_fexp_mul_half_tiny p~0) by (cbn [digits2_pos]; lia).
      cbn [shr_1 orb loc_of_shr_record round_nearest_even shr_m shr_r shr_s].
      rewrite !(shr_fexp_tiny (Zpos p)) by (cbn [Zdigits2]; lia).
      reflexivity.
    + cbn [Zdigits2]. change (Zpos (digits2_pos one_m)) with 53.
      cbn [digits2_pos]. rewrite Pos2Z.inj_succ.
      unfold fexp, SpecFloat.emin, prec, emax. lia.
    + lia.
    + lia.
    + unfold one_m. rewrite Pos2Z.inj_xO. change (2 ^ 51) with 2251799813685248. lia.
    + unfold one_m. lia.
  - destruct s; reflexivity.
Qed.

Lemma SF64_mul_half_div_two sf :
  valid_binary sf = true -> SF64mul sf SF_half = SF64div sf SF_two.
Proof.
  destruct sf as [s | s | | s m e]; intros Hb; try (destruct s; reflexivity); [reflexivity |].
  cbn [valid_binary SpecFloat.valid_binary] in Hb.
  pose proof (bounded_cases m e Hb) as [He Hd].
  assert (Hcase : (Zpos (digits2_pos m) = 53 /\ -1074 < e) \/ e = -1074) by lia.
  destruct Hcase as [[Hd53 Hlow] | ->].
  - rewrite SF64mul_half_normal, SF64div_two_normal by assumption. reflexivity.
  - apply SF64_half_tiny. exact Hb.
Qed.

Lemma mul_half_div_two (x : float) : (x * 0.5)%float = (x / 2)%float.
Proof.
  apply Prim2SF_inj. rewrite mul_spec, div_spec.
  change (Prim2SF 0.5) with SF_half. change (Prim2SF 2) with SF_two.
  apply SF64_mul_half_div_two. apply Prim2SF_valid.
Qed.
End ExactOperations.

(** ** The branchless binary search *)

Ltac read_in_bounds :=
  match goal with
  | Hn : nth_error _ _ = None |- _ =>
      apply nth_error_None in Hn; rewrite to_size_t_small in Hn by lia; lia
  end.

Section SearchLoop.
Local Open Scope Z_scope.
Import Cxx libthermo.
Context {T : Type}.
Variable cmp : T -> T -> bool.

(** The loop stays inside the window [idx, idx + len) it was given, reads
    only inside it, and ends. *)
Lemma upper_bound_loop_range (array : list T) (value : T) (len idx : Z) :
  0 <= idx -> idx + len <= Z.of_nat (length array) -> idx + len < 2 ^ 64 ->
  exists r, upper_bound_loop cmp array value len idx = Some r
            /\ idx <= r <= idx + Z.max (len - 1) 0.
Proof.
  funelim (upper_bound_loop cmp array value len idx); intros Hidx Hlen Hmax.
  - exists idx. split; [reflexivity | lia].
  - pose proof (half_bounds len ltac:(lia)) as [Hh1 Hh2].
    assert (Hb : 0 <= Z.b2z (negb (cmp value a)) <= 1) by (destruct (negb _); simpl; lia).
    rewrite to_size_t_small in * by nia.
    destruct H as (r & Hr & Hrange); [nia | nia | nia |].
    exists r. split; [exact Hr | nia].
  - pose proof (half_bounds len ltac:(lia)) as [Hh1 Hh2]. read_in_bounds.
Qed.

(** Under a monotone test the loop finds the first position of the window
    where the test holds, the last position of the window excepted, which
    is never probed. *)
Lemma upper_bound_loop_first (array : list T) (value : T) (len idx : Z) :
  monotone_test cmp array value ->
  0 <= idx -> idx + len <= Z.of_nat (length array) -> idx + len < 2 ^ 64 ->
  exists r, upper_bound_loop cmp array value len idx = Some r
    /\ (forall i a, idx <= i < r -> nth_error array (Z.to_nat i) = Some a ->
                    cmp value a = false)
    /\ (r < idx + len - 1 ->
        exists a, nth_error array (Z.to_nat r) = Some a /\ cmp value a = true).
Proof.
  intros Hmono.
  funelim (upper_bound_loop cmp array value len idx); intros Hidx Hlen Hmax.
  - exists idx. split; [reflexivity |]. split; intros; lia.
  - pose proof (half_bounds len ltac:(lia)) as [Hh1 Hh2].
    pose proof (upper_bound_loop_range array value (len - Z.quot len 2)
                  (to_size_t (idx + Z.b2z (negb (cmp value a)) * Z.quot len 2))) as Hrange.
    rewrite to_size_t_small in Heq by lia.
    destruct (cmp value a) eqn:Hc; simpl Z.b2z in *;
      rewrite ?Z.mul_0_l, ?Z.mul_1_l, ?Z.add_0_r in *;
      rewrite to_size_t_small in * by lia.
    + (* the probe passes the test: the answer is in the left part *)
      destruct (H Hmono) as (r & Hr & Hlow & Hhigh); [lia | lia | lia |].
      destruct Hrange as (r' & Hr' & Hrange); [lia | lia | lia |].
      rewrite Hr in Hr'. injection Hr' as <-.
      exists r. split; [exact Hr |]. split; [exact Hlow |].
      intros Hlt.
      destruct (Z_lt_dec r (idx + (len - Z.quot len 2) - 1)) as [Hin | Hout].
      * apply Hhigh. exact Hin.
      * destruct (nth_error array (Z.to_nat r)) as [b |] eqn:Hb.
        -- exists b. split; [reflexivity |].
           apply (Hmono (Z.to_nat (idx + Z.quot len 2 - 1)) (Z.to_nat r) a b); auto. lia.
        -- apply nth_error_None in Hb. lia.
    + (* the probe fails the test: so does everything on its left *)
      destruct (H Hmono) as (r & Hr & Hlow & Hhigh); [lia | lia | lia |].
      destruct Hrange as (r' & Hr' & Hrange); [lia | lia | lia |].
      rewrite Hr in Hr'. injection Hr' as <-.
      exists r. split; [exact Hr |]. split.
      * intros i b Hi Hb.
        destruct (Z_lt_dec i (idx + Z.quot len 2)) as [Hleft | Hright].
        -- destruct (cmp value b) eqn:Hcb; [| reflexivity].
           rewrite <- Hc. symmetry.
           apply (Hmono (Z.to_nat i) (Z.to_nat (idx + Z.quot len 2 - 1)) b a); auto. lia.
        -- apply (Hlow i); [lia | exact Hb].
      * intros Hlt. apply Hhigh. lia.
  - pose proof (half_bounds len ltac:(lia)) as [Hh1 Hh2]. read_in_bounds.
Qed.

(** [lower_bound] is [upper_bound] for the negated, flipped comparison. *)
Lemma lower_bound_loop_as_upper (array : list T) (value : T) (len idx : Z) :
  lower_bound_loop cmp array value len idx
  = upper_bound_loop (fun v a => negb (cmp a v)) array value len idx.
Proof.
  funelim (lower_bound_loop cmp array value len idx).
  - simp upper_bound_loop. rewrite Heq. reflexivity.
  - simp upper_bound_loop. rewrite Heq0. cbn. rewrite Heq. cbn.
    rewrite negb_involutive. exact H.
  - simp upper_bound_loop. rewrite Heq0. cbn. rewrite Heq. reflexivity.
Qed.
End SearchLoop.

(** ** Ascending profiles *)

Section Ascending.
Local Open Scope float_scope.
Import Cxx libthermo.

Lemma no_nan_nth x i a : no_nan x = true -> nth_error x i = Some a -> is_nan a = false.
Proof.
  unfold no_nan. rewrite forallb_forall. intros Hall Hi.
  apply nth_error_In in Hi. apply Hall in Hi. apply negb_true_iff in Hi. exact Hi.
Qed.

Lemma leb_refl a : is_nan a = false -> (a <=? a) = true.
Proof.
  intros Ha. rewrite leb_spec. unfold SFleb.
  rewrite SFcompare_refl; [reflexivity | apply is_nan_spec; exact Ha].
Qed.

(** A profile without NaN that [monotonic] accepts as increasing is
    ordered by [<=] between any two positions. *)
Lemma monotonic_increasing_ordered x :
  monotonic x increasing = true -> no_nan x = true ->
  forall (i j : nat) (a b : float),
    (i <= j)%nat -> nth_error x i = Some a -> nth_error x j = Some b -> (a <=? b) = true.
Proof.
  simpl. induction x as [| a0 tl IH]; intros Hmon Hnan i j a b Hij Hi Hj.
  - destruct i; discriminate.
  - assert (Htl : no_decrease tl = true /\ no_nan tl = true).
    { simpl in Hnan. apply andb_true_iff in Hnan as [_ Hnan].
      split; [| exact Hnan].
      destruct tl as [| b0 tl']; [reflexivity |].
      simpl in Hmon. destruct (b0 <? a0); [discriminate | exact Hmon]. }
    destruct Htl as [Hmon' Hnan'].
    destruct i as [| i'].
    + injection Hi as <-.
      assert (Ha0 : is_nan a0 = false) by (apply (no_nan_nth _ 0%nat a0 Hnan); reflexivity).
      destruct j as [| j'].
      * injection Hj as <-. apply leb_refl. exact Ha0.
      * destruct tl as [| b0 tl']; [destruct j'; discriminate |].
        assert (Hb0 : is_nan b0 = false) by (apply (no_nan_nth _ 0%nat b0 Hnan'); reflexivity).
        apply (leb_trans a0 b0 b).
        -- simpl in Hmon. rewrite (leb_ltb_total b0 a0 Hb0 Ha0) in Hmon.
           destruct (a0 <=? b0); [reflexivity | discriminate].
        -- apply (IH Hmon' Hnan' 0%nat j' b0 b); [lia | reflexivity | exact Hj].
    + destruct j as [| j']; [lia |].
      apply (IH Hmon' Hnan' i' j' a b); [lia | exact Hi | exact Hj].
Qed.
End Ascending.

(** ** [search_sorted] *)

Section SearchSorted.
Local Open Scope Z_scope.
Import Cxx libthermo.

(** C10: on an array of [size >= 1] elements, the non-inverted
    [search_sorted] returns an index, and that index is at most
    [size - 1]: the half-lengths added to the index sum to at most
    [size - 1], so the array length itself is never returned, whatever the
    contents of the array and the searched value. *)
Theorem search_sorted_below_size (x : list float) (value : float) (size : Z) :
  Z.of_nat (length x) = size -> 1 <= size ->
  exists idx, search_sorted x value size false = Some idx /\ 0 <= idx <= size - 1.
Proof.
  intros Hlen Hsize. unfold search_sorted, upper_bound.
  pose proof (to_int_le size ltac:(lia)) as Hle.
  pose proof (to_int_lt size) as Hlt.
  destruct (upper_bound_loop_range less_equal x value (to_int size) 0)
    as (r & Hr & Hrange); [lia | lia | lia |].
  exists r. split; [exact Hr | lia].
Qed.

Lemma search_sorted_below_size_witness :
  exists idx, search_sorted [1; 2; 3; 4]%float 5%float 4 false = Some idx /\ 0 <= idx <= 4 - 1.
Proof.
  apply (search_sorted_below_size [1; 2; 3; 4]%float 5%float 4).
  - reflexivity.
  - lia.
Defined.

(** C1, as stated, fails: on [1,2,3,4] the value 5 is not sent to the
    past-end index 4. *)
Lemma search_sorted_past_end_counterexample :
  search_sorted [1; 2; 3; 4]%float 5%float 4 false = Some 3
  /\ Some 3 <> Some 4 :> option Z.
Proof. split; [vm_compute; reflexivity | discriminate]. Qed.

(** C1, amended: on [1,2,3,4] the value 0.5 gives 0 and the value 5 gives
    3, the last index.  More generally, on a profile of [size] elements
    ([1 <= size < 2^31]) without NaN that [monotonic] accepts as increasing,
    and for a value that is not NaN, [search_sorted] with [inverted = false]
    returns an index [idx <= size - 1] such that every element before [idx]
    is less than the value, and either the element at [idx] is not less
    than the value (so [idx] is the first such index), or [idx] is the last
    index and every element of the profile is less than the value. *)
Theorem search_sorted_ascending :
  search_sorted [1; 2; 3; 4]%float 0.5%float 4 false = Some 0
  /\ search_sorted [1; 2; 3; 4]%float 5%float 4 false = Some 3
  /\ forall (x : list float) (value : float) (size : Z),
      Z.of_nat (length x) = size -> 1 <= size < 2 ^ 31 ->
      monotonic x increasing = true -> no_nan x = true -> isnan value = false ->
      exists idx,
        search_sorted x value size false = Some idx
        /\ 0 <= idx <= size - 1
        /\ (forall i a, 0 <= i < idx -> nth_error x (Z.to_nat i) = Some a ->
                        (a <? value)%float = true)
        /\ ((exists a, nth_error x (Z.to_nat idx) = Some a /\ (a <? value)%float = false)
            \/ (idx = size - 1
                /\ forall i a, nth_error x i = Some a -> (a <? value)%float = true)).
Proof.
  split; [vm_compute; reflexivity |]. split; [vm_compute; reflexivity |].
  intros x value size Hlen Hsize Hmon Hnan Hvalue.
  pose proof (monotonic_increasing_ordered x Hmon Hnan) as Hord.
  assert (Hmono : monotone_test less_equal x value).
  { intros i j a b Hij Hi Hj Hva. unfold less_equal in *.
    apply (leb_trans value a b); [exact Hva |]. apply (Hord i j); assumption. }
  assert (Hlt : forall i a, nth_error x i = Some a ->
                            (a <? value)%float = negb (less_equal value a)).
  { intros i a Hi. apply leb_ltb_total; [| exact Hvalue].
    apply (no_nan_nth x i); assumption. }
  unfold search_sorted, upper_bound. rewrite to_int_small by lia.
  destruct (upper_bound_loop_range less_equal x value size 0)
    as (r & Hr & Hrange); [lia | lia | lia |].
  destruct (upper_bound_loop_first less_equal x value size 0 Hmono)
    as (r' & Hr' & Hlow & Hhigh); [lia | lia | lia |].
  rewrite Hr in Hr'. injection Hr' as <-.
  exists r. split; [exact Hr |]. split; [lia |]. split.
  - intros i a Hi Ha. rewrite (Hlt _ _ Ha), (Hlow i a); [reflexivity | lia | exact Ha].
  - destruct (Z_lt_dec r (size - 1)) as [Hin | Hlast].
    + left. destruct Hhigh as (a & Ha & Hva); [lia |].
      exists a. split; [exact Ha |]. rewrite (Hlt _ _ Ha), Hva. reflexivity.
    + assert (Hr_last : r = size - 1) by lia.
      destruct (nth_error x (Z.to_nat r)) as [a |] eqn:Ha;
        [| apply nth_error_None in Ha; lia].
      destruct (a <? value)%float eqn:Hav.
      * right. split; [exact Hr_last |].
        intros i b Hb.
        assert (Hi : (i < length x)%nat) by (apply nth_error_Some; congruence).
        destruct (Nat.eq_dec i (Z.to_nat r)) as [-> | Hne].
        -- congruence.
        -- rewrite (Hlt _ _ Hb), (Hlow (Z.of_nat i) b); [reflexivity | lia |].
           rewrite Nat2Z.id. exact Hb.
      * left. exists a. split; [reflexivity | exact Hav].
Qed.

Lemma search_sorted_ascending_witness :
  exists idx,
    search_sorted [1; 2; 3; 4]%float 2.5%float 4 false = Some idx
    /\ 0 <= idx <= 4 - 1
    /\ (forall i a, 0 <= i < idx -> nth_error [1; 2; 3; 4]%float (Z.to_nat i) = Some a ->
                    (a <? 2.5)%float = true)
    /\ ((exists a, nth_error [1; 2; 3; 4]%float (Z.to_nat idx) = Some a
                   /\ (a <? 2.5)%float = false)
        \/ (idx = 4 - 1
            /\ forall i a, nth_error [1; 2; 3; 4]%float i = Some a -> (a <? 2.5)%float = true)).
Proof.
  apply (proj2 (proj2 search_sorted_ascending) [1; 2; 3; 4]%float 2.5%float 4).
  - reflexivity.
  - lia.
  - vm_compute. reflexivity.
  - vm_compute. reflexivity.
  - vm_compute. reflexivity.
Defined.

(** The inverted search stays below the array length as well. *)
Lemma search_sorted_inverted_below_size (x : list float) (value : float) (size : Z) :
  Z.of_nat (length x) = size -> 1 <= size ->
  exists idx, search_sorted x value size true = Some idx /\ 0 <= idx <= size - 1.
Proof.
  intros Hlen Hsize. unfold search_sorted, lower_bound.
  rewrite lower_bound_loop_as_upper.
  pose proof (to_int_le size ltac:(lia)) as Hle.
  pose proof (to_int_lt size) as Hlt.
  destruct (upper_bound_loop_range (fun v a => negb (greater_equal a v)) x value
              (to_int size) 0) as (r & Hr & Hrange); [lia | lia | lia |].
  exists r. split; [exact Hr | lia].
Qed.
End SearchSorted.

(** ** [fixed_point] *)

Section FixedPointProperties.
Local Open Scope float_scope.
Import Cxx.
Context `{Libm} {Args : Type}.
Variable fn : float -> float -> Args -> float.
Variables (eps x0 : float) (args : Args).

Lemma fixed_point_loop_count remaining i p0 :
  (i < snd (libthermo.fixed_point_loop fn eps x0 args (S remaining) i p0)
   <= i + S remaining)%nat.
Proof.
  revert i p0. induction remaining as [| k IH]; intros i p0.
  - cbn [libthermo.fixed_point_loop].
    destruct (libthermo.fixed_point_body fn x0 args p0) as [p2 err].
    destruct (err <? eps); simpl; lia.
  - cbn [libthermo.fixed_point_loop].
    destruct (libthermo.fixed_point_body fn x0 args p0) as [p2 err].
    destruct (err <? eps); [simpl; lia |].
    specialize (IH (S i) p2). cbn [libthermo.fixed_point_loop] in IH. lia.
Qed.

Lemma fixed_point_loop_bounded remaining i p0 :
  (snd (libthermo.fixed_point_loop fn eps x0 args remaining i p0) <= i + remaining)%nat.
Proof.
  destruct remaining as [| k].
  - simpl. lia.
  - pose proof (fixed_point_loop_count k i p0). lia.
Qed.

Lemma fixed_point_loop_exhausts remaining i p0 :
  (forall k, (k < remaining)%nat ->
     (snd (libthermo.fixed_point_body fn x0 args
             (Nat.iter k (fun p => fst (libthermo.fixed_point_body fn x0 args p)) p0))
      <? eps) = false) ->
  libthermo.fixed_point_loop fn eps x0 args remaining i p0 = (nan, (i + remaining)%nat).
Proof.
  revert i p0. induction remaining as [| n IH]; intros i p0 Hnever.
  - simpl. rewrite Nat.add_0_r. reflexivity.
  - cbn [libthermo.fixed_point_loop].
    pose proof (Hnever 0%nat ltac:(lia)) as H0. cbn [Nat.iter nat_rect] in H0.
    destruct (libthermo.fixed_point_body fn x0 args p0) as [p2 err] eqn:Hbody.
    cbn [snd] in H0. rewrite H0.
    rewrite (IH (S i) p2).
    + f_equal. lia.
    + intros k Hk. specialize (Hnever (S k) ltac:(lia)).
      rewrite <- Hnever. rewrite Nat.iter_succ_r, Hbody. reflexivity.
Qed.
End FixedPointProperties.

Section FixedPointClaims.
Local Open Scope float_scope.
Import Cxx.

(** C3: [fixed_point] never runs its body more than [max_iters] times; and
    if the test [err < eps] fails in every one of the [max_iters] passes,
    the body is run exactly [max_iters] times and the value returned is
    NaN.  The function is total: it has no error exit. *)
Theorem fixed_point_exhausts `{Libm} {Args : Type}
  (fn : float -> float -> Args -> float) (eps x0 : float) (args : Args) (max_iters : N) :
  (snd (libthermo.fixed_point_run fn eps x0 args max_iters) <= N.to_nat max_iters)%nat
  /\ ((forall k, (k < N.to_nat max_iters)%nat -> (pass_error fn x0 args k <? eps) = false) ->
      libthermo.fixed_point fn eps x0 args max_iters = nan
      /\ snd (libthermo.fixed_point_run fn eps x0 args max_iters) = N.to_nat max_iters).
Proof.
  unfold libthermo.fixed_point, libthermo.fixed_point_run. split.
  - apply (fixed_point_loop_bounded fn eps x0 args (N.to_nat max_iters) 0 x0).
  - intros Hnever.
    rewrite (fixed_point_loop_exhausts fn eps x0 args (N.to_nat max_iters) 0 x0 Hnever).
    split; reflexivity.
Qed.

(** The map [p -> p + 1] has no fixed point; from 1 its first three passes
    have errors 2, 2/3 and 2/5. *)
Lemma fixed_point_exhausts_witness :
  @libthermo.fixed_point libm_exact_cases unit (fun p _ _ => p + 1) 0.1 1 tt 3 = nan
  /\ snd (@libthermo.fixed_point_run libm_exact_cases unit (fun p _ _ => p + 1) 0.1 1 tt 3)
     = 3%nat.
Proof.
  apply (proj2 (@fixed_point_exhausts libm_exact_cases unit (fun p _ _ => p + 1) 0.1 1 tt 3)).
  intros k Hk.
  destruct k as [| [| [| k]]]; [vm_compute; reflexivity .. | simpl in Hk; lia].
Defined.

(** C2, on the code: with the current estimate [p0 = 0] the error compared
    with [eps] is [p2] itself, not [|p2|].  For the map [p -> p - 1] started
    at 0 the first pass has [p2 = -2] and [err = -2]; since [-2 < 0.1]
    the function returns [-2] after one pass, although [|p2| = 2] is not
    below [eps = 0.1]. *)
Theorem fixed_point_error_is_signed `{Libm} :
  libthermo.fixed_point_body (fun p _ (_ : unit) => p - 1) 0 tt 0 = (-2, -2)
  /\ (fabs (-2) <? 0.1) = false
  /\ libthermo.fixed_point_run (fun p _ (_ : unit) => p - 1) 0.1 0 tt 50 = (-2, 1%nat)
  /\ nzt.fixed_point_run (fun p _ _ _ => p - 1) 0 0 0 0.1 50 = (-2, 1%nat).
Proof. repeat split; vm_compute; reflexivity. Qed.

(** The error of a pass is the relative change [|(p2 - p0) / p0|] when
    [p0] is not zero, and [p2] as it stands when [p0] is zero. *)
Lemma fixed_point_error_cases `{Libm} {Args : Type}
  (fn : float -> float -> Args -> float) (x0 : float) (args : Args) (p0 : float) :
  snd (libthermo.fixed_point_body fn x0 args p0)
  = if truthy p0
    then fabs ((fst (libthermo.fixed_point_body fn x0 args p0) - p0) / p0)
    else fst (libthermo.fixed_point_body fn x0 args p0).
Proof. unfold libthermo.fixed_point_body. cbn [fst snd]. reflexivity. Qed.

(** The two copies of the iteration agree. *)
Lemma nzt_fixed_point_loop `{Libm}
  (fn : float -> float -> float -> float -> float) (x0 x1 x2 eps : float)
  (remaining i : nat) (p0 : float) :
  nzt.fixed_point_loop fn x0 x1 x2 eps remaining i p0
  = libthermo.fixed_point_loop (fun p x a => fn p x (fst a) (snd a)) eps x0 (x1, x2)
      remaining i p0.
Proof.
  revert i p0. induction remaining as [| n IH]; intros i p0; [reflexivity |].
  cbn [nzt.fixed_point_loop libthermo.fixed_point_loop].
  change (libthermo.fixed_point_body (fun p x a => fn p x (fst a) (snd a)) x0 (x1, x2) p0)
    with (nzt.fixed_point_body fn x0 x1 x2 p0).
  destruct (nzt.fixed_point_body fn x0 x1 x2 p0) as [p2 err].
  destruct (err <? eps); [reflexivity | apply IH].
Qed.

Lemma nzt_fixed_point_run `{Libm}
  (fn : float -> float -> float -> float -> float) (x0 x1 x2 eps : float) (max_iters : N) :
  nzt.fixed_point_run fn x0 x1 x2 eps max_iters
  = libthermo.fixed_point_run (fun p x a => fn p x (fst a) (snd a)) eps x0 (x1, x2) max_iters.
Proof. apply nzt_fixed_point_loop. Qed.
End FixedPointClaims.

(** ** The formulas *)

Section FormulaClaims.
Local Open Scope float_scope.
Import Cxx.
Context `{Libm}.

(** C5: [wet_bulb_potential_temperature] computes
    [theta_e = equivalent_potential_temperature(p, T, Td)]; when
    [theta_e <= 173.15] it returns [theta_e] unchanged, and otherwise it
    returns [theta_e] minus the exponential of a rational polynomial in
    [theta_e / T0].  The comparison is [<=] against the double 173.15
    itself: that value is still returned unchanged, the next double above
    it is not. *)
Theorem wet_bulb_potential_temperature_branches (pressure temperature dewpoint : float) :
  ((nzt.equivalent_potential_temperature pressure temperature dewpoint <=? 173.15) = true
   /\ nzt.wet_bulb_potential_temperature pressure temperature dewpoint
      = nzt.equivalent_potential_temperature pressure temperature dewpoint
   \/
   (nzt.equivalent_potential_temperature pressure temperature dewpoint <=? 173.15) = false
   /\ nzt.wet_bulb_potential_temperature pressure temperature dewpoint
      = nzt.equivalent_potential_temperature pressure temperature dewpoint
        - exp (theta_w_rational
                 (nzt.equivalent_potential_temperature pressure temperature dewpoint / nzt.T0)))
  /\ (173.15 <=? 173.15) = true
  /\ (next_up 173.15 <=? 173.15) = false.
Proof.
  split; [| split; vm_compute; reflexivity].
  unfold nzt.wet_bulb_potential_temperature.
  destruct (nzt.equivalent_potential_temperature pressure temperature dewpoint <=? 173.15).
  - left. split; reflexivity.
  - right. split; reflexivity.
Qed.

(** C6: for every trial pressure and fixed arguments, [lcl_solver]
    returns the trial pressure it was given when the rescaled pressure it
    computes (the reference pressure times (trial dewpoint / temperature)
    to the power [1.0 / (Rd / Cpd)], the source's way of writing Cpd/Rd) is
    NaN, and returns the rescaled pressure otherwise. *)
Theorem lcl_solver_nan_fallback
  (pressure reference_pressure temperature mixing_ratio : float) :
  rescaled_pressure pressure reference_pressure temperature mixing_ratio = nan
  /\ nzt.lcl_solver pressure reference_pressure temperature mixing_ratio = pressure
  \/
  rescaled_pressure pressure reference_pressure temperature mixing_ratio <> nan
  /\ nzt.lcl_solver pressure reference_pressure temperature mixing_ratio
     = rescaled_pressure pressure reference_pressure temperature mixing_ratio.
Proof.
  unfold nzt.lcl_solver, isnan.
  change (reference_pressure
          * pow (nzt.dewpoint_p_r pressure mixing_ratio / temperature)
              (1.0 / (nzt.Rd / nzt.Cpd)))
    with (rescaled_pressure pressure reference_pressure temperature mixing_ratio).
  destruct (is_nan (rescaled_pressure pressure reference_pressure temperature mixing_ratio))
    eqn:Hnan.
  - left. split; [apply is_nan_true_iff; exact Hnan | reflexivity].
  - right. split; [apply is_nan_false_iff; exact Hnan | reflexivity].
Qed.

(** C9: the elementwise [wet_bulb_temperature], [lcl_pressure] and [lcl]
    call the functions of [nzt] with [eps = 0.1], [step = 1000.0] and
    [max_iter = 50]; so the fixed-point iteration on [lcl_solver] runs with
    [eps = 0.1] and [max_iters = 50], and the integration of the moist
    lapse rate with [step = 1000.0]. *)
Theorem ufunc_defaults (pressure temperature dewpoint : float) :
  ufunc.wet_bulb_temperature pressure temperature dewpoint
  = nzt.wet_bulb_temperature pressure temperature dewpoint 0.1 1000.0 50
  /\ ufunc.lcl_pressure pressure temperature dewpoint
     = nzt.lcl_pressure pressure temperature dewpoint 0.1 50
  /\ ufunc.lcl pressure temperature dewpoint
     = nzt.lcl pressure temperature dewpoint 0.1 50
  /\ ufunc.lcl_pressure pressure temperature dewpoint
     = nzt.fixed_point nzt.lcl_solver pressure temperature
         (nzt.mixing_ratio (nzt.saturation_vapor_pressure dewpoint) pressure) 0.1 50
  /\ fst (ufunc.lcl pressure temperature dewpoint)
     = nzt.fixed_point nzt.lcl_solver pressure temperature
         (nzt.mixing_ratio (nzt.saturation_vapor_pressure dewpoint) pressure) 0.1 50
  /\ ufunc.wet_bulb_temperature pressure temperature dewpoint
     = nzt.rk2 nzt.moist_lapse_solver
         (fst (ufunc.lcl pressure temperature dewpoint)) pressure
         (snd (ufunc.lcl pressure temperature dewpoint)) 1000.0.
Proof.
  unfold ufunc.wet_bulb_temperature, ufunc.lcl_pressure, ufunc.lcl.
  repeat split; reflexivity.
Qed.
End FormulaClaims.

(** ** The identity of [potential_temperature] at the reference pressure *)

Section ReferencePressure.
Local Open Scope float_scope.
Context `{Libm}.

(** C8: [potential_temperature(100000.0, T)] is [T] for every double [T]
    (as a value of binary64; all NaN are one value), because the Exner
    function is 1 at [P0 = 100000]: the quotient [100000 / 100000] is 1,
    [pow(1, y)] is 1 for every [y] (the one property of [pow] used; C fixes
    it in Annex F), and dividing by 1 is exact. *)
Theorem potential_temperature_at_reference :
  (forall y, pow 1 y = 1) ->
  forall T : float,
    nzt.exner_function 100000.0 nzt.P0 = 1
    /\ nzt.potential_temperature 100000.0 T = T.
Proof.
  intros Hpow T.
  assert (Hexner : nzt.exner_function 100000.0 nzt.P0 = 1).
  { unfold nzt.exner_function.
    change (100000.0 / nzt.P0) with 1. apply Hpow. }
  split; [exact Hexner |].
  unfold nzt.potential_temperature. rewrite Hexner. apply div_one.
Qed.
End ReferencePressure.

Lemma potential_temperature_at_reference_witness :
  @nzt.exner_function libm_exact_cases 100000.0%float nzt.P0 = 1%float
  /\ @nzt.potential_temperature libm_exact_cases 100000.0%float 288.15%float = 288.15%float.
Proof.
  apply (@potential_temperature_at_reference libm_exact_cases).
  intros y. reflexivity.
Defined.

(** ** [rk2] *)

Section Rk2Claims.
Local Open Scope float_scope.
Import Cxx.
Variable fn : float -> float -> float.

Lemma rk2_loop_substeps (N : nat) (delta x0 y : float) :
  libthermo.rk2_loop fn N delta x0 y
  = snd (Nat.iter N (midpoint_substep fn delta) (x0, y)).
Proof.
  revert x0 y. induction N as [| n IH]; intros x0 y; [reflexivity |].
  rewrite Nat.iter_succ_r. cbn [libthermo.rk2_loop]. rewrite IH.
  unfold midpoint_substep at 3. rewrite !mul_half_div_two. reflexivity.
Qed.

Lemma nzt_rk2 (x0 x1 y step : float) :
  nzt.rk2 fn x0 x1 y step = libthermo.rk2 fn x0 x1 y step.
Proof.
  unfold nzt.rk2, libthermo.rk2.
  assert (Hloop : forall N d a b, nzt.rk2_loop fn N d a b = libthermo.rk2_loop fn N d a b).
  { induction N as [| n IH]; intros d a b; [reflexivity |].
    cbn [nzt.rk2_loop libthermo.rk2_loop]. apply IH. }
  destruct (step <? fabs (x1 - x0)).
  - destruct (size_t_of_double (ceil (fabs (x1 - x0) / step))); [| reflexivity].
    rewrite Hloop. reflexivity.
  - rewrite Hloop. reflexivity.
Qed.

Lemma is_nan_fabs x : is_nan (fabs x) = is_nan x.
Proof.
  unfold fabs.
  destruct (is_nan x) eqn:Hx.
  - apply is_nan_true_iff in Hx. subst x. reflexivity.
  - apply is_nan_spec. rewrite abs_spec. apply is_nan_spec in Hx.
    destruct (Prim2SF x); simpl; congruence.
Qed.

(** C4: for every rate function, interval, initial value and step hint,
    [rk2] is the integration the specification describes: when
    [|x1 - x0|] exceeds the step hint, [N = ceil(|x1 - x0| / step)]
    midpoint substeps of the same size [(x1 - x0) / N], which has the sign
    of [x1 - x0]; otherwise exactly one midpoint substep of size
    [x1 - x0].  Each substep is [k1 = delta * fn(x, y)];
    [y <- y + delta * fn(x + delta/2, y + k1/2)]; [x <- x + delta].  Both
    copies of [rk2] are covered, and no condition is put on the
    arguments. *)
Theorem rk2_refines_integrate_exceeds (x0 x1 y step : float) :
  libthermo.rk2 fn x0 x1 y step = integrate_exceeds fn x0 x1 y step
  /\ nzt.rk2 fn x0 x1 y step = integrate_exceeds fn x0 x1 y step.
Proof.
  rewrite nzt_rk2.
  assert (Hmain : libthermo.rk2 fn x0 x1 y step = integrate_exceeds fn x0 x1 y step).
  { unfold libthermo.rk2, integrate_exceeds.
    destruct (step <? fabs (x1 - x0)).
    - destruct (size_t_of_double (ceil (fabs (x1 - x0) / step))); [| reflexivity].
      rewrite rk2_loop_substeps. reflexivity.
    - rewrite rk2_loop_substeps. reflexivity. }
  split; exact Hmain.
Qed.

(** Between numbers "[|x1 - x0|] does not exceed the step hint" is
    [|x1 - x0| <= step]: when neither the interval nor the step hint is a
    NaN, [rk2] is also the integration written with that test first. *)
Lemma rk2_refines_integrate (x0 x1 y step : float) :
  is_nan (x1 - x0) = false -> is_nan step = false ->
  libthermo.rk2 fn x0 x1 y step = integrate fn x0 x1 y step
  /\ nzt.rk2 fn x0 x1 y step = integrate fn x0 x1 y step.
Proof.
  intros Hdelta Hstep.
  rewrite nzt_rk2.
  assert (Hmain : libthermo.rk2 fn x0 x1 y step = integrate fn x0 x1 y step).
  { unfold libthermo.rk2, integrate.
    rewrite (leb_ltb_total step (fabs (x1 - x0)))
      by (rewrite ?is_nan_fabs; assumption).
    destruct (fabs (x1 - x0) <=? step); cbn [negb].
    - rewrite rk2_loop_substeps. reflexivity.
    - destruct (size_t_of_double (ceil (fabs (x1 - x0) / step))); [| reflexivity].
      rewrite rk2_loop_substeps. reflexivity. }
  split; exact Hmain.
Qed.

(** When the interval or the step hint is a NaN the comparison
    [abs_delta > step] is false, and [rk2] takes a single substep. *)
Lemma rk2_unordered_single_step (x0 x1 y step : float) :
  is_nan (x1 - x0) = true \/ is_nan step = true ->
  libthermo.rk2 fn x0 x1 y step = Some (snd (midpoint_substep fn (x1 - x0) (x0, y))).
Proof.
  intros Hnan. unfold libthermo.rk2.
  assert (Hcmp : (step <? fabs (x1 - x0)) = false).
  { destruct Hnan as [Hd | Hs].
    - apply ltb_nan_r. rewrite is_nan_fabs. exact Hd.
    - apply ltb_nan_l. exact Hs. }
  rewrite Hcmp, rk2_loop_substeps. reflexivity.
Qed.
End Rk2Claims.

(** The growth [y' = y] over [0, 2500] with step hint 1000: three substeps. *)
Lemma rk2_refines_integrate_witness :
  libthermo.rk2 (fun _ y => y) 0 2500 1 1000 = integrate (fun _ y => y) 0 2500 1 1000
  /\ nzt.rk2 (fun _ y => y) 0 2500 1 1000 = integrate (fun _ y => y) 0 2500 1 1000.
Proof.
  apply (rk2_refines_integrate (fun _ y => y) 0 2500 1 1000).
  - vm_compute. reflexivity.
  - vm_compute. reflexivity.
Defined.

(** * Further properties of the code *)

(** ** Edge cases of the searches *)

Section SearchEdges.
Local Open Scope Z_scope.
Import Cxx libthermo.

Lemma upper_bound_loop_short {T : Type} (cmp : T -> T -> bool)
  (array : list T) (value : T) (len idx : Z) :
  len <= 1 -> upper_bound_loop cmp array value len idx = Some idx.
Proof.
  intros Hlen. funelim (upper_bound_loop cmp array value len idx);
    [reflexivity | lia | lia].
Qed.

Lemma to_int_wrapped size :
  2 ^ 31 <= size < 2 ^ 32 + 2 ^ 31 -> to_int size = size - 2 ^ 32.
Proof.
  intros Hs. unfold to_int.
  rewrite <- (Z.mod_add (size + 2 ^ 31) (-1) (2 ^ 32)) by lia.
  rewrite Z.mod_small; lia.
Qed.

(** [search_sorted] hands its [size_t] size to the bounds as an [int]: a
    size of 0 or 1, and every size from [2^31] to [2^32 + 1] (an [int] of
    at most 1), gives index 0 without a read of the array. *)
Theorem search_sorted_trivial_sizes
  (x : list float) (value : float) (size : Z) (inverted : bool) :
  0 <= size <= 1 \/ 2 ^ 31 <= size <= 2 ^ 32 + 1 ->
  search_sorted x value size inverted = Some 0.
Proof.
  intros Hsize.
  assert (Hint : to_int size <= 1).
  { destruct Hsize as [Hs | Hs].
    - rewrite to_int_small; lia.
    - rewrite to_int_wrapped; lia. }
  unfold search_sorted, lower_bound, upper_bound.
  destruct inverted.
  - rewrite lower_bound_loop_as_upper. apply upper_bound_loop_short. exact Hint.
  - apply upper_bound_loop_short. exact Hint.
Qed.

Lemma search_sorted_trivial_sizes_witness :
  search_sorted [1; 2; 3]%float 2.5%float (2 ^ 32 + 1) false = Some 0
  /\ search_sorted [] 2.5%float 0 true = Some 0.
Proof.
  split.
  - apply (search_sorted_trivial_sizes [1; 2; 3]%float 2.5%float (2 ^ 32 + 1) false).
    right. lia.
  - apply (search_sorted_trivial_sizes [] 2.5%float 0 true). left. lia.
Defined.
End SearchEdges.

(** ** Decreasing profiles *)

Section Descending.
Local Open Scope float_scope.
Import Cxx libthermo.

(** A profile without NaN that [monotonic] accepts as decreasing is
    ordered by [>=] between any two positions. *)
Lemma monotonic_decreasing_ordered x :
  monotonic x decreasing = true -> no_nan x = true ->
  forall (i j : nat) (a b : float),
    (i <= j)%nat -> nth_error x i = Some a -> nth_error x j = Some b -> (b <=? a) = true.
Proof.
  simpl. induction x as [| a0 tl IH]; intros Hmon Hnan i j a b Hij Hi Hj.
  - destruct i; discriminate.
  - assert (Htl : no_increase tl = true /\ no_nan tl = true).
    { simpl in Hnan. apply andb_true_iff in Hnan as [_ Hnan].
      split; [| exact Hnan].
      destruct tl as [| b0 tl']; [reflexivity |].
      simpl in Hmon. destruct (a0 <? b0); [discriminate | exact Hmon]. }
    destruct Htl as [Hmon' Hnan'].
    destruct i as [| i'].
    + injection Hi as <-.
      assert (Ha0 : is_nan a0 = false) by (apply (no_nan_nth _ 0%nat a0 Hnan); reflexivity).
      destruct j as [| j'].
      * injection Hj as <-. apply leb_refl. exact Ha0.
      * destruct tl as [| b0 tl']; [destruct j'; discriminate |].
        assert (Hb0 : is_nan b0 = false) by (apply (no_nan_nth _ 0%nat b0 Hnan'); reflexivity).
        apply (leb_trans b b0 a0).
        -- apply (IH Hmon' Hnan' 0%nat j' b0 b); [lia | reflexivity | exact Hj].
        -- simpl in Hmon. rewrite (leb_ltb_total a0 b0 Ha0 Hb0) in Hmon.
           destruct (b0 <=? a0); [reflexivity | discriminate].
    + destruct j as [| j']; [lia |].
      apply (IH Hmon' Hnan' i' j' a b); [lia | exact Hi | exact Hj].
Qed.

Local Open Scope Z_scope.

(** The index that [lower_bound] with [greater_equal] finds in a
    decreasing profile. *)
Lemma lower_bound_descending (x : list float) (value : float) (size : Z) :
  Z.of_nat (length x) = size -> 1 <= size < 2 ^ 31 ->
  monotonic x decreasing = true -> no_nan x = true -> isnan value = false ->
  exists idx,
    lower_bound greater_equal x (to_int size) value = Some idx
    /\ 0 <= idx <= size - 1
    /\ (forall i a, 0 <= i < idx -> nth_error x (Z.to_nat i) = Some a ->
                    (value <=? a)%float = true)
    /\ ((exists a, nth_error x (Z.to_nat idx) = Some a /\ (a <? value)%float = true)
        \/ (idx = size - 1
            /\ forall i a, nth_error x i = Some a -> (value <=? a)%float = true)).
Proof.
  intros Hlen Hsize Hmon Hnan Hvalue.
  pose proof (monotonic_decreasing_ordered x Hmon Hnan) as Hord.
  set (cmp' := fun v a : float => negb (greater_equal a v)).
  assert (Hmono : monotone_test cmp' x value).
  { intros i j a b Hij Hi Hj. unfold cmp', greater_equal.
    rewrite !negb_true_iff. intros Hva.
    destruct (value <=? b)%float eqn:Hvb; [| reflexivity].
    rewrite <- Hva. symmetry. apply (leb_trans value b a); [exact Hvb |].
    apply (Hord i j); assumption. }
  assert (Hlt : forall i a, nth_error x i = Some a ->
                            (a <? value)%float = negb (value <=? a)%float).
  { intros i a Hi. apply leb_ltb_total; [| exact Hvalue].
    apply (no_nan_nth x i); assumption. }
  unfold lower_bound. rewrite lower_bound_loop_as_upper. fold cmp'.
  rewrite to_int_small by lia.
  destruct (upper_bound_loop_range cmp' x value size 0)
    as (r & Hr & Hrange); [lia | lia | lia |].
  destruct (upper_bound_loop_first cmp' x value size 0 Hmono)
    as (r' & Hr' & Hlow & Hhigh); [lia | lia | lia |].
  rewrite Hr in Hr'. injection Hr' as <-.
  exists r. split; [exact Hr |]. split; [lia |]. split.
  - intros i a Hi Ha. specialize (Hlow i a ltac:(lia) Ha).
    unfold cmp', greater_equal in Hlow. apply negb_false_iff in Hlow. exact Hlow.
  - destruct (Z_lt_dec r (size - 1)) as [Hin | Hlast].
    + left. destruct Hhigh as (a & Ha & Hva); [lia |].
      exists a. split; [exact Ha |]. rewrite (Hlt _ _ Ha).
      unfold cmp', greater_equal in Hva. exact Hva.
    + assert (Hr_last : r = size - 1) by lia.
      destruct (nth_error x (Z.to_nat r)) as [a |] eqn:Ha;
        [| apply nth_error_None in Ha; lia].
      destruct (a <? value)%float eqn:Hav.
      * left. exists a. split; [reflexivity | exact Hav].
      * right. split; [exact Hr_last |].
        intros i b Hb.
        assert (Hi : (i < length x)%nat) by (apply nth_error_Some; congruence).
        destruct (Nat.eq_dec i (Z.to_nat r)) as [-> | Hne].
        -- rewrite (Hlt _ _ Ha) in Hav. apply negb_false_iff in Hav. congruence.
        -- specialize (Hlow (Z.of_nat i) b ltac:(lia)). rewrite Nat2Z.id in Hlow.
           specialize (Hlow Hb). unfold cmp', greater_equal in Hlow.
           apply negb_false_iff in Hlow. exact Hlow.
Qed.

(** On a decreasing profile without NaN the inverted search returns the
    first index whose element is less than the value, or the last index
    when no element is. *)
Theorem search_sorted_descending (x : list float) (value : float) (size : Z) :
  Z.of_nat (length x) = size -> 1 <= size < 2 ^ 31 ->
  monotonic x decreasing = true -> no_nan x = true -> isnan value = false ->
  exists idx,
    search_sorted x value size true = Some idx
    /\ 0 <= idx <= size - 1
    /\ (forall i a, 0 <= i < idx -> nth_error x (Z.to_nat i) = Some a ->
                    (value <=? a)%float = true)
    /\ ((exists a, nth_error x (Z.to_nat idx) = Some a /\ (a <? value)%float = true)
        \/ (idx = size - 1
            /\ forall i a, nth_error x i = Some a -> (value <=? a)%float = true)).
Proof. unfold search_sorted. apply lower_bound_descending. Qed.

Lemma search_sorted_descending_witness :
  exists idx,
    search_sorted [4; 3; 2; 1]%float 2.5%float 4 true = Some idx
    /\ 0 <= idx <= 4 - 1
    /\ (forall i a, 0 <= i < idx -> nth_error [4; 3; 2; 1]%float (Z.to_nat i) = Some a ->
                    (2.5 <=? a)%float = true)
    /\ ((exists a, nth_error [4; 3; 2; 1]%float (Z.to_nat idx) = Some a
                   /\ (a <? 2.5)%float = true)
        \/ (idx = 4 - 1
            /\ forall i a, nth_error [4; 3; 2; 1]%float i = Some a -> (2.5 <=? a)%float = true)).
Proof.
  apply (search_sorted_descending [4; 3; 2; 1]%float 2.5%float 4).
  - reflexivity.
  - lia.
  - vm_compute. reflexivity.
  - vm_compute. reflexivity.
  - vm_compute. reflexivity.
Defined.
End Descending.

(** ** [interpolate_z] *)

Section InterpolateZ.
Local Open Scope Z_scope.
Import Cxx libthermo.

(** When the comparison fails at every element the index never moves. *)
Lemma lower_bound_loop_never {T : Type} (cmp : T -> T -> bool)
  (array : list T) (value : T) (len idx : Z) :
  (forall a, In a array -> cmp a value = false) ->
  0 <= idx -> idx + len <= Z.of_nat (length array) -> idx + len < 2 ^ 64 ->
  lower_bound_loop cmp array value len idx = Some idx.
Proof.
  intros Hnever.
  funelim (lower_bound_loop cmp array value len idx); intros Hidx Hlen Hmax.
  - reflexivity.
  - pose proof (half_bounds len ltac:(lia)) as [Hh1 Hh2].
    rewrite (Hnever a) in * by (eapply nth_error_In; eassumption).
    simpl Z.b2z in *. rewrite Z.mul_0_l, Z.add_0_r in *.
    pose proof (to_size_t_small idx ltac:(lia)) as Hs. rewrite Hs in *.
    apply H; [exact Hnever | lia | lia | lia].
  - pose proof (half_bounds len ltac:(lia)) as [Hh1 Hh2]. read_in_bounds.
Qed.

(** When the comparison holds at every element the index runs to the end
    of the window. *)
Lemma lower_bound_loop_always {T : Type} (cmp : T -> T -> bool)
  (array : list T) (value : T) (len idx : Z) :
  (forall a, In a array -> cmp a value = true) ->
  0 <= idx -> idx + len <= Z.of_nat (length array) -> idx + len < 2 ^ 64 ->
  lower_bound_loop cmp array value len idx = Some (idx + Z.max (len - 1) 0).
Proof.
  intros Halways.
  funelim (lower_bound_loop cmp array value len idx); intros Hidx Hlen Hmax.
  - f_equal. lia.
  - pose proof (half_bounds len ltac:(lia)) as [Hh1 Hh2].
    rewrite (Halways a) in * by (eapply nth_error_In; eassumption).
    simpl Z.b2z in *. rewrite Z.mul_1_l in *.
    pose proof (to_size_t_small (idx + Z.quot len 2) ltac:(lia)) as Hs. rewrite Hs in *.
    rewrite H; [f_equal; lia | exact Halways | lia | lia | lia].
  - pose proof (half_bounds len ltac:(lia)) as [Hh1 Hh2]. read_in_bounds.
Qed.

Lemma lower_bound_in_range (xp : list float) (x : float) (size : Z) :
  Z.of_nat (length xp) = size -> 1 <= size ->
  exists i, lower_bound greater_equal xp (to_int size) x = Some i
            /\ 0 <= i <= size - 1 /\ i < 2 ^ 31.
Proof.
  intros Hlen Hsize. unfold lower_bound. rewrite lower_bound_loop_as_upper.
  pose proof (to_int_le size ltac:(lia)) as Hle.
  pose proof (to_int_lt size) as Hlt.
  destruct (upper_bound_loop_range (fun v a => negb (greater_equal a v)) xp x
              (to_int size) 0) as (r & Hr & Hrange); [lia | lia | lia |].
  exists r. split; [exact Hr | lia].
Qed.

Lemma nth_error_nth_Z (l : list float) (i : Z) :
  0 <= i < Z.of_nat (length l) ->
  nth_error l (Z.to_nat i) = Some (nth (Z.to_nat i) l 0%float).
Proof. intros Hi. apply nth_error_nth'. lia. Qed.

(** The reads of [interpolate_z] at an index [i >= 1] inside the arrays. *)
Lemma interpolate_z_at (size : Z) (x : float) (xp fp : list float) (i : Z) :
  Z.of_nat (length xp) = size -> Z.of_nat (length fp) = size ->
  lower_bound greater_equal xp (to_int size) x = Some i -> 1 <= i <= size - 1 ->
  interpolate_z size x xp fp
  = Some (linear_interpolate x
            (nth (Z.to_nat (i - 1)) xp 0%float) (nth (Z.to_nat i) xp 0%float)
            (nth (Z.to_nat (i - 1)) fp 0%float) (nth (Z.to_nat i) fp 0%float)).
Proof.
  intros Hxp Hfp Hlb Hi.
  destruct (lower_bound_in_range xp x size Hxp ltac:(lia)) as (i' & Hlb' & _ & Hsmall).
  rewrite Hlb in Hlb'. injection Hlb' as <-.
  unfold interpolate_z. rewrite Hlb.
  destruct (Z.eqb_spec i 0) as [-> | _]; [lia |].
  rewrite (to_size_t_small (i - 1)) by lia.
  rewrite !nth_error_nth_Z by lia. reflexivity.
Qed.

(** [interpolate_z] is defined exactly on non-empty arrays. *)
Theorem interpolate_z_defined_iff (size : Z) (x : float) (xp fp : list float) :
  Z.of_nat (length xp) = size -> Z.of_nat (length fp) = size ->
  interpolate_z size x xp fp = None <-> size = 0.
Proof.
  intros Hxp Hfp. split.
  - intros Hnone.
    destruct (Z.eq_dec size 0) as [Hz | Hnz]; [exact Hz | exfalso].
    destruct (lower_bound_in_range xp x size Hxp ltac:(lia)) as (i & Hlb & Hi & _).
    destruct (Z.eq_dec i 0) as [-> | Hi0].
    + unfold interpolate_z in Hnone. rewrite Hlb in Hnone. simpl in Hnone.
      destruct fp; [simpl in Hfp; lia | discriminate].
    + rewrite (interpolate_z_at size x xp fp i Hxp Hfp Hlb ltac:(lia)) in Hnone.
      discriminate.
  - intros ->. destruct xp; [| discriminate]. destruct fp; [| discriminate].
    reflexivity.
Qed.

Lemma interpolate_z_defined_iff_witness :
  interpolate_z 0 1%float [] [] = None <-> 0 = 0.
Proof.
  apply (interpolate_z_defined_iff 0 1%float [] []); reflexivity.
Defined.

(** Above the first knot there is no extrapolation. *)
Theorem interpolate_z_above_first_knot (size : Z) (x : float) (xp fp : list float) :
  Z.of_nat (length xp) = size -> Z.of_nat (length fp) = size -> 1 <= size ->
  forallb (fun a => negb (x <=? a)%float) xp = true ->
  interpolate_z size x xp fp = Some (nth 0 fp 0%float).
Proof.
  intros Hxp Hfp Hsize Hall.
  pose proof (to_int_le size ltac:(lia)) as Hle.
  pose proof (to_int_lt size) as Hlt.
  unfold interpolate_z, lower_bound.
  rewrite lower_bound_loop_never; [| | lia | lia | lia].
  - simpl. destruct fp; [simpl in Hfp; lia | reflexivity].
  - intros a Ha. rewrite forallb_forall in Hall. specialize (Hall a Ha).
    unfold greater_equal. apply negb_true_iff. exact Hall.
Qed.

Lemma interpolate_z_above_first_knot_witness :
  interpolate_z 3 5%float [4; 3; 2]%float [10; 20; 30]%float
  = Some (nth 0 [10; 20; 30]%float 0%float).
Proof.
  apply (interpolate_z_above_first_knot 3 5%float [4; 3; 2]%float [10; 20; 30]%float).
  - reflexivity.
  - reflexivity.
  - lia.
  - vm_compute. reflexivity.
Defined.

(** At or below every knot the last pair of knots is extrapolated. *)
Theorem interpolate_z_below_last_knot (size : Z) (x : float) (xp fp : list float) :
  Z.of_nat (length xp) = size -> Z.of_nat (length fp) = size -> 2 <= size < 2 ^ 31 ->
  forallb (fun a => (x <=? a)%float) xp = true ->
  interpolate_z size x xp fp
  = Some (linear_interpolate x
            (nth (Z.to_nat (size - 2)) xp 0%float) (nth (Z.to_nat (size - 1)) xp 0%float)
            (nth (Z.to_nat (size - 2)) fp 0%float) (nth (Z.to_nat (size - 1)) fp 0%float)).
Proof.
  intros Hxp Hfp Hsize Hall.
  assert (Hlb : lower_bound greater_equal xp (to_int size) x = Some (size - 1)).
  { unfold lower_bound. rewrite to_int_small by lia.
    rewrite lower_bound_loop_always; [f_equal; lia | | lia | lia | lia].
    intros a Ha. rewrite forallb_forall in Hall. exact (Hall a Ha). }
  rewrite (interpolate_z_at size x xp fp (size - 1) Hxp Hfp Hlb ltac:(lia)).
  replace (size - 1 - 1) with (size - 2) by lia. reflexivity.
Qed.

Lemma interpolate_z_below_last_knot_witness :
  interpolate_z 3 1%float [4; 3; 2]%float [10; 20; 30]%float
  = Some (linear_interpolate 1
            (nth (Z.to_nat (3 - 2)) [4; 3; 2]%float 0%float)
            (nth (Z.to_nat (3 - 1)) [4; 3; 2]%float 0%float)
            (nth (Z.to_nat (3 - 2)) [10; 20; 30]%float 0%float)
            (nth (Z.to_nat (3 - 1)) [10; 20; 30]%float 0%float)).
Proof.
  apply (interpolate_z_below_last_knot 3 1%float [4; 3; 2]%float [10; 20; 30]%float).
  - reflexivity.
  - reflexivity.
  - lia.
  - vm_compute. reflexivity.
Defined.

(** On a decreasing profile the pair of knots that is interpolated
    brackets [x]. *)
Theorem interpolate_z_brackets (size : Z) (x : float) (xp fp : list float) :
  Z.of_nat (length xp) = size -> Z.of_nat (length fp) = size -> 1 <= size < 2 ^ 31 ->
  monotonic xp decreasing = true -> no_nan xp = true -> isnan x = false ->
  (interpolate_z size x xp fp = Some (nth 0 fp 0%float)
   /\ ((nth 0 xp 0 <? x)%float = true \/ size = 1))
  \/ (exists i : nat,
        (1 <= i <= Z.to_nat size - 1)%nat
        /\ interpolate_z size x xp fp
           = Some (linear_interpolate x (nth (i - 1) xp 0%float) (nth i xp 0%float)
                     (nth (i - 1) fp 0%float) (nth i fp 0%float))
        /\ (x <=? nth (i - 1) xp 0)%float = true
        /\ ((nth i xp 0 <? x)%float = true \/ i = (Z.to_nat size - 1)%nat)).
Proof.
  intros Hxp Hfp Hsize Hmon Hnan Hx.
  destruct (lower_bound_descending xp x size Hxp Hsize Hmon Hnan Hx)
    as (idx & Hlb & Hidx & Hlow & Hhigh).
  destruct (Z.eq_dec idx 0) as [-> | Hpos].
  - left. split.
    + unfold interpolate_z. rewrite Hlb. simpl.
      destruct fp; [simpl in Hfp; lia | reflexivity].
    + destruct Hhigh as [(a & Ha & Hlt) | [Hlast _]]; [left | right; lia].
      simpl in Ha. destruct xp; [discriminate |]. injection Ha as ->. exact Hlt.
  - right. exists (Z.to_nat idx). split; [lia |]. split; [| split].
    + rewrite (interpolate_z_at size x xp fp idx Hxp Hfp Hlb ltac:(lia)).
      replace (Z.to_nat (idx - 1)) with (Z.to_nat idx - 1)%nat by lia. reflexivity.
    + apply (Hlow (idx - 1)); [lia |].
      rewrite (nth_error_nth_Z xp (idx - 1)) by lia.
      replace (Z.to_nat (idx - 1)) with (Z.to_nat idx - 1)%nat by lia. reflexivity.
    + destruct Hhigh as [(a & Ha & Hlt) | [Hlast _]]; [left | right; lia].
      rewrite (nth_error_nth_Z xp idx) in Ha by lia. injection Ha as <-. exact Hlt.
Qed.
End InterpolateZ.

Lemma interpolate_z_brackets_witness :
  (libthermo.interpolate_z 3 2.5%float [4; 3; 2]%float [10; 20; 30]%float
   = Some (nth 0 [10; 20; 30]%float 0%float)
   /\ ((nth 0 [4; 3; 2]%float 0 <? 2.5)%float = true \/ 3 = 1)%Z)
  \/ (exists i : nat,
        (1 <= i <= Z.to_nat 3 - 1)%nat
        /\ libthermo.interpolate_z 3 2.5%float [4; 3; 2]%float [10; 20; 30]%float
           = Some (libthermo.linear_interpolate 2.5%float
                     (nth (i - 1) [4; 3; 2]%float 0%float) (nth i [4; 3; 2]%float 0%float)
                     (nth (i - 1) [10; 20; 30]%float 0%float)
                     (nth i [10; 20; 30]%float 0%float))
        /\ (2.5 <=? nth (i - 1) [4; 3; 2]%float 0)%float = true
        /\ ((nth i [4; 3; 2]%float 0 <? 2.5)%float = true \/ i = (Z.to_nat 3 - 1)%nat)).
Proof.
  apply (interpolate_z_brackets 3 2.5%float [4; 3; 2]%float [10; 20; 30]%float).
  - reflexivity.
  - reflexivity.
  - lia.
  - vm_compute. reflexivity.
  - vm_compute. reflexivity.
  - vm_compute. reflexivity.
Defined.

Section MonotonicProperties.
Local Open Scope float_scope.
Import Cxx libthermo.

Lemma ordered_no_decrease x :
  no_nan x = true ->
  (forall (i j : nat) (a b : float),
     (i <= j)%nat -> nth_error x i = Some a -> nth_error x j = Some b -> (a <=? b) = true) ->
  no_decrease x = true.
Proof.
  induction x as [| a0 tl IH]; intros Hnan Hord; [reflexivity |].
  destruct tl as [| b0 tl']; [reflexivity |].
  cbn [no_decrease].
  assert (Ha0 : is_nan a0 = false) by (apply (no_nan_nth _ 0%nat a0 Hnan); reflexivity).
  assert (Hb0 : is_nan b0 = false) by (apply (no_nan_nth _ 1%nat b0 Hnan); reflexivity).
  rewrite (leb_ltb_total b0 a0 Hb0 Ha0).
  rewrite (Hord 0%nat 1%nat a0 b0) by (try reflexivity; lia).
  cbn [negb]. apply IH.
  - simpl in Hnan. apply andb_true_iff in Hnan as [_ Hnan]. exact Hnan.
  - intros i j a b Hij Hi Hj. apply (Hord (S i) (S j)); [lia | exact Hi | exact Hj].
Qed.

Lemma ordered_no_increase x :
  no_nan x = true ->
  (forall (i j : nat) (a b : float),
     (i <= j)%nat -> nth_error x i = Some a -> nth_error x j = Some b -> (b <=? a) = true) ->
  no_increase x = true.
Proof.
  induction x as [| a0 tl IH]; intros Hnan Hord; [reflexivity |].
  destruct tl as [| b0 tl']; [reflexivity |].
  cbn [no_increase].
  assert (Ha0 : is_nan a0 = false) by (apply (no_nan_nth _ 0%nat a0 Hnan); reflexivity).
  assert (Hb0 : is_nan b0 = false) by (apply (no_nan_nth _ 1%nat b0 Hnan); reflexivity).
  rewrite (leb_ltb_total a0 b0 Ha0 Hb0).
  rewrite (Hord 0%nat 1%nat a0 b0) by (try reflexivity; lia).
  cbn [negb]. apply IH.
  - simpl in Hnan. apply andb_true_iff in Hnan as [_ Hnan]. exact Hnan.
  - intros i j a b Hij Hi Hj. apply (Hord (S i) (S j)); [lia | exact Hi | exact Hj].
Qed.

(** On a profile without NaN, [monotonic] decides the order between any
    two positions, not only between neighbours. *)
Theorem monotonic_iff_ordered (x : list float) :
  no_nan x = true ->
  (monotonic x increasing = true <->
   forall (i j : nat) (a b : float),
     (i <= j)%nat -> nth_error x i = Some a -> nth_error x j = Some b -> (a <=? b) = true)
  /\ (monotonic x decreasing = true <->
      forall (i j : nat) (a b : float),
        (i <= j)%nat -> nth_error x i = Some a -> nth_error x j = Some b -> (b <=? a) = true).
Proof.
  intros Hnan. split; split.
  - intros Hmon. apply monotonic_increasing_ordered; assumption.
  - apply ordered_no_decrease. exact Hnan.
  - intros Hmon. apply monotonic_decreasing_ordered; assumption.
  - apply ordered_no_increase. exact Hnan.
Qed.

Lemma monotonic_iff_ordered_witness :
  (monotonic [1; 2; 2; 3] increasing = true <->
   forall (i j : nat) (a b : float),
     (i <= j)%nat -> nth_error [1; 2; 2; 3] i = Some a -> nth_error [1; 2; 2; 3] j = Some b ->
     (a <=? b) = true)
  /\ (monotonic [1; 2; 2; 3] decreasing = true <->
      forall (i j : nat) (a b : float),
        (i <= j)%nat -> nth_error [1; 2; 2; 3] i = Some a ->
        nth_error [1; 2; 2; 3] j = Some b -> (b <=? a) = true).
Proof.
  apply (monotonic_iff_ordered [1; 2; 2; 3]). vm_compute. reflexivity.
Defined.

Lemma no_increase_cons2 c d l :
  no_increase (c :: d :: l) = if c <? d then false else no_increase (d :: l).
Proof. reflexivity. Qed.

Lemma no_decrease_cons2 c d l :
  no_decrease (c :: d :: l) = if d <? c then false else no_decrease (d :: l).
Proof. reflexivity. Qed.

Lemma no_increase_snoc l a :
  no_increase (l ++ [a])
  = no_increase l && match l with [] => true | _ => negb (last l a <? a) end.
Proof.
  induction l as [| c l' IH]; [reflexivity |].
  destruct l' as [| d l''].
  - simpl. destruct (c <? a); reflexivity.
  - change ((c :: d :: l'') ++ [a]) with (c :: d :: (l'' ++ [a])).
    rewrite !no_increase_cons2.
    change (d :: (l'' ++ [a])) with ((d :: l'') ++ [a]).
    rewrite IH. destruct (c <? d); reflexivity.
Qed.

Lemma no_decrease_snoc l a :
  no_decrease (l ++ [a])
  = no_decrease l && match l with [] => true | _ => negb (a <? last l a) end.
Proof.
  induction l as [| c l' IH]; [reflexivity |].
  destruct l' as [| d l''].
  - simpl. destruct (a <? c); reflexivity.
  - change ((c :: d :: l'') ++ [a]) with (c :: d :: (l'' ++ [a])).
    rewrite !no_decrease_cons2.
    change (d :: (l'' ++ [a])) with ((d :: l'') ++ [a]).
    rewrite IH. destruct (d <? c); reflexivity.
Qed.

Lemma no_increase_rev x : no_increase (rev x) = no_decrease x.
Proof.
  induction x as [| a0 tl IH]; [reflexivity |].
  cbn [rev]. rewrite no_increase_snoc, IH.
  destruct tl as [| b tl']; [reflexivity |].
  cbn [rev no_decrease]. rewrite last_last.
  destruct (rev tl' ++ [b]) eqn:Hrev; [destruct (rev tl'); discriminate |].
  destruct (b <? a0); [apply andb_false_r | apply andb_true_r].
Qed.

Lemma no_decrease_rev x : no_decrease (rev x) = no_increase x.
Proof.
  induction x as [| a0 tl IH]; [reflexivity |].
  cbn [rev]. rewrite no_decrease_snoc, IH.
  destruct tl as [| b tl']; [reflexivity |].
  cbn [rev no_increase]. rewrite last_last.
  destruct (rev tl' ++ [b]) eqn:Hrev; [destruct (rev tl'); discriminate |].
  destruct (a0 <? b); [apply andb_false_r | apply andb_true_r].
Qed.

(** Reversing a profile exchanges the two directions. *)
Theorem monotonic_rev (x : list float) :
  monotonic (rev x) decreasing = monotonic x increasing
  /\ monotonic (rev x) increasing = monotonic x decreasing.
Proof. split; [apply no_increase_rev | apply no_decrease_rev]. Qed.

(** [monotonic] compares neighbours with [<] and [>] only: a NaN between
    two samples hides their order, in both directions. *)
Theorem monotonic_blind_to_nan (a b : float) (d : direction) :
  monotonic [a; nan; b] d = true.
Proof.
  destruct d; cbn [monotonic no_decrease no_increase].
  - rewrite (ltb_nan_l nan a), (ltb_nan_r b nan); reflexivity.
  - rewrite (ltb_nan_r a nan), (ltb_nan_l nan b); reflexivity.
Qed.
End MonotonicProperties.

(** ** Signs and zeros *)


Section SignsAndZeros.
Local Open Scope float_scope.
Import Cxx libthermo.

Lemma negate_nonzero x :
  is_nan x = false -> (x =? 0) = false ->
  is_nan (- x) = false /\ (- x =? 0) = false /\ (- x <? 0) = negb (x <? 0).
Proof.
  rewrite !is_nan_spec, !eqb_spec, !ltb_spec, opp_spec.
  change (Prim2SF 0) with (S754_zero false).
  unfold SFeqb, SFltb.
  destruct (Prim2SF x) as [[]|[]| |[] m e]; simpl; intros Hn Hz;
    repeat split; congruence.
Qed.

(** Away from zero and NaN the step function and its mirror image add up
    to one. *)
Theorem heaviside_complement (x h0 : float) :
  is_nan x = false -> (x =? 0) = false ->
  heaviside x h0 + heaviside (- x) h0 = 1.
Proof.
  intros Hn Hz. destruct (negate_nonzero x Hn Hz) as (Hn' & Hz' & Hlt).
  unfold heaviside, isnan. rewrite Hn, Hz, Hn', Hz', Hlt.
  destruct (x <? 0); reflexivity.
Qed.

Lemma heaviside_complement_witness :
  heaviside (-2.5) 0.5 + heaviside (- (-2.5)) 0.5 = 1.
Proof.
  apply (heaviside_complement (-2.5) 0.5); vm_compute; reflexivity.
Defined.

Lemma SFsub_diag sf :
  match sf with S754_zero _ | S754_finite _ _ _ => True | _ => False end ->
  SF64sub sf sf = S754_zero false.
Proof.
  destruct sf as [[] | s | | s m e]; intros Hf; try contradiction; try reflexivity.
  unfold SF64sub, SFsub.
  set (t := cond_Zopp s _).
  assert (Ht : IntDef.Z.sub t t = 0%Z) by apply Z.sub_diag.
  rewrite Ht. reflexivity.
Qed.

Lemma finite_not_nan x : finite x = true -> is_nan x = false.
Proof.
  unfold finite. intros Hf. apply is_nan_spec. intros Hnan. rewrite Hnan in Hf.
  discriminate.
Qed.

Lemma sub_diag x : finite x = true -> Prim2SF (x - x) = S754_zero false.
Proof.
  unfold finite. intros Hf. rewrite sub_spec. apply SFsub_diag.
  destruct (Prim2SF x); try discriminate; exact I.
Qed.

Lemma zero_mul_finite a d s :
  Prim2SF a = S754_zero s -> finite d = true ->
  exists s', Prim2SF (a * d) = S754_zero s'.
Proof.
  unfold finite. intros Ha Hd. rewrite mul_spec, Ha.
  destruct (Prim2SF d) as [sd | | | sd m e]; try discriminate; eexists; reflexivity.
Qed.

Lemma zero_div_nonzero a q s :
  Prim2SF a = S754_zero s -> is_nan q = false -> (q =? 0) = false ->
  exists s', Prim2SF (a / q) = S754_zero s'.
Proof.
  rewrite is_nan_spec, eqb_spec. change (Prim2SF 0) with (S754_zero false).
  intros Ha Hn Hz. rewrite div_spec, Ha.
  destruct (Prim2SF q) as [sq | sq | | sq m e]; try congruence;
    try (eexists; reflexivity).
  destruct sq; discriminate.
Qed.

Lemma add_zero_eqb y z s :
  is_nan y = false -> Prim2SF z = S754_zero s -> (y + z =? y) = true.
Proof.
  rewrite is_nan_spec. intros Hy Hz. rewrite eqb_spec, add_spec, Hz.
  destruct (Prim2SF y) as [sy | sy | | sy m e] eqn:Hsy; try congruence.
  - destruct sy, s; reflexivity.
  - destruct sy; reflexivity.
  - cbn [SF64add SFadd]. unfold SFeqb. rewrite SFcompare_refl; [reflexivity | discriminate].
Qed.

Lemma sub_finite_not_nan_r a b : finite (a - b) = true -> is_nan b = false.
Proof.
  unfold finite. rewrite sub_spec. intros Hf. apply is_nan_spec. intros Hb.
  rewrite Hb in Hf. destruct (Prim2SF a); discriminate.
Qed.

(** At [x = x0] the interpolation gives [y0], and the normalised abscissa
    is 0 (as numbers: a zero of either sign is equal to 0). *)
Theorem linear_interpolate_left_knot (x0 x1 y0 y1 : float) :
  finite x0 = true -> finite (y1 - y0) = true ->
  is_nan (x1 - x0) = false -> (x1 - x0 =? 0) = false ->
  (linear_interpolate x0 x0 x1 y0 y1 =? y0) = true
  /\ (norm x0 x0 x1 =? 0) = true.
Proof.
  intros Hx0 Hdy Hn Hz.
  pose proof (sub_diag x0 Hx0) as H0.
  destruct (zero_mul_finite (x0 - x0) (y1 - y0) false H0 Hdy) as (s1 & H1).
  destruct (zero_div_nonzero _ (x1 - x0) s1 H1 Hn Hz) as (s2 & H2).
  destruct (zero_div_nonzero _ (x1 - x0) false H0 Hn Hz) as (s3 & H3).
  split.
  - unfold linear_interpolate.
    apply (add_zero_eqb y0 _ s2); [| exact H2].
    apply (sub_finite_not_nan_r y1 y0). exact Hdy.
  - unfold norm. rewrite eqb_spec, H3. destruct s3; reflexivity.
Qed.

Lemma linear_interpolate_left_knot_witness :
  (linear_interpolate 850 850 700 283.15 275.15 =? 283.15) = true
  /\ (norm 850 850 700 =? 0) = true.
Proof.
  apply (linear_interpolate_left_knot 850 700 283.15 275.15); vm_compute; reflexivity.
Defined.

Lemma SFopp_binary_round_aux s m e l :
  SFopp (binary_round_aux prec emax s m e l) = binary_round_aux prec emax (negb s) m e l.
Proof.
  unfold binary_round_aux.
  destruct (shr_fexp prec emax m e l) as [mrs' e'].
  destruct (shr_fexp prec emax _ e' loc_Exact) as [mrs'' e''].
  destruct (shr_m mrs''); [reflexivity | | reflexivity].
  destruct (e'' <=? emax - prec)%Z; reflexivity.
Qed.

Lemma SF64mul_opp_l x y : SF64mul (SFopp x) y = SFopp (SF64mul x y).
Proof.
  destruct x as [sx | sx | | sx mx ex], y as [sy | sy | | sy my ey];
    cbn [SFopp SF64mul SFmul]; rewrite ?SFopp_binary_round_aux;
    try reflexivity; destruct sx, sy; reflexivity.
Qed.

Lemma SF64div_opp_l x y : SF64div (SFopp x) y = SFopp (SF64div x y).
Proof.
  destruct x as [sx | sx | | sx mx ex], y as [sy | sy | | sy my ey];
    cbn [SFopp SF64div SFdiv]; try reflexivity;
    try (destruct sx, sy; reflexivity).
  destruct (SFdiv_core_binary prec emax (Zpos mx) ex (Zpos my) ey) as [[mz ez] lz].
  rewrite SFopp_binary_round_aux. destruct sx, sy; reflexivity.
Qed.

Lemma mul_opp_l x y : (- x) * y = - (x * y).
Proof.
  apply Prim2SF_inj. rewrite mul_spec, !opp_spec, mul_spec. apply SF64mul_opp_l.
Qed.

Lemma div_opp_l x y : (- x) / y = - (x / y).
Proof.
  apply Prim2SF_inj. rewrite div_spec, !opp_spec, div_spec. apply SF64div_opp_l.
Qed.

(** The two angle conversions are odd functions, exactly. *)
Theorem degrees_radians_odd (x : float) :
  degrees (- x) = - degrees x /\ radians (- x) = - radians x.
Proof.
  unfold degrees, radians. rewrite !mul_opp_l, !div_opp_l. split; reflexivity.
Qed.
End SignsAndZeros.

(** ** Edge cases of [rk2], and more exact operations *)

Section Rk2Edges.
Local Open Scope float_scope.
Import Cxx.
Variable fn : float -> float -> float.

Lemma zero_spec x : (x =? 0) = true -> exists s, Prim2SF x = S754_zero s.
Proof.
  rewrite eqb_spec. change (Prim2SF 0) with (S754_zero false). unfold SFeqb.
  destruct (Prim2SF x) as [s | [] | | [] m e]; simpl; intros Hz;
    try discriminate. exists s. reflexivity.
Qed.

Lemma positive_spec x :
  (0 <? x) = true ->
  Prim2SF x = S754_infinity false \/ exists m e, Prim2SF x = S754_finite false m e.
Proof.
  rewrite ltb_spec. change (Prim2SF 0) with (S754_zero false). unfold SFltb.
  destruct (Prim2SF x) as [s | [] | | [] m e]; simpl; intros Hp;
    try discriminate; [left; reflexivity | right; exists m, e; reflexivity].
Qed.

(** A zero step hint with a non-empty interval: the quotient
    [abs_delta / step] is infinite and its conversion to [size_t] is
    undefined. *)
Theorem rk2_zero_step (x0 x1 y step : float) :
  (step =? 0) = true -> (0 <? fabs (x1 - x0)) = true ->
  libthermo.rk2 fn x0 x1 y step = None /\ nzt.rk2 fn x0 x1 y step = None.
Proof.
  intros Hstep Hdelta. rewrite nzt_rk2.
  destruct (zero_spec step Hstep) as (s & Hs).
  assert (Hlt : (step <? fabs (x1 - x0)) = true).
  { rewrite ltb_spec, Hs.
    destruct (positive_spec _ Hdelta) as [Hd | (m & e & Hd)]; rewrite Hd;
      destruct s; reflexivity. }
  assert (Hq : exists s', Prim2SF (fabs (x1 - x0) / step) = S754_infinity s').
  { rewrite div_spec, Hs.
    destruct (positive_spec _ Hdelta) as [Hd | (m & e & Hd)]; rewrite Hd;
      eexists; reflexivity. }
  destruct Hq as (s' & Hq).
  assert (Hnone : size_t_of_double (ceil (fabs (x1 - x0) / step)) = None).
  { unfold ceil. rewrite Hq. unfold size_t_of_double. rewrite Hq. reflexivity. }
  unfold libthermo.rk2. rewrite Hlt, Hnone. split; reflexivity.
Qed.
End Rk2Edges.

Lemma rk2_zero_step_witness :
  libthermo.rk2 (fun _ y => y) 0 1 1 0 = None /\ nzt.rk2 (fun _ y => y) 0 1 1 0 = None.
Proof.
  apply (rk2_zero_step (fun _ y => y) 0 1 1 0); vm_compute; reflexivity.
Defined.

Section MoreExactOperations.
Local Open Scope Z_scope.

Lemma SF64mul_one sf : valid_binary sf = true -> SF64mul sf SF_one = sf.
Proof.
  destruct sf as [s | s | | s m e]; intros Hb; try (destruct s; reflexivity); [reflexivity |].
  cbn [valid_binary SpecFloat.valid_binary] in Hb.
  pose proof (bounded_cases m e Hb) as [He Hd].
  unfold SF64mul, SF_one, SFmul, binary_round_aux. rewrite xorb_false_r.
  assert (Hshr : shr_fexp prec emax (Zpos (m * one_m)) (e + -52) loc_Exact
                 = ({| shr_m := Zpos m; shr_r := false; shr_s := false |}, e)).
  { unfold shr_fexp. rewrite mul_one_m. cbn [Zdigits2]. rewrite digits2_pos_shift52.
    assert (Hs : fexp prec emax (Zpos (digits2_pos m) + 52 + (e + -52)) - (e + -52) = 52).
    { unfold fexp, SpecFloat.emin, prec, emax. lia. }
    rewrite Hs. unfold shr. f_equal; first [reflexivity | lia]. }
  rewrite Hshr.
  cbn [loc_of_shr_record shr_m shr_r shr_s round_nearest_even].
  unfold shr_fexp. cbn [Zdigits2 shr_record_of_loc].
  assert (Hs : fexp prec emax (Zpos (digits2_pos m) + e) - e = 0).
  { unfold fexp, SpecFloat.emin, prec, emax. lia. }
  rewrite Hs. cbn [shr shr_m].
  assert (Hle : (e <=? emax - prec) = true) by (apply Z.leb_le; unfold emax, prec; lia).
  rewrite Hle. reflexivity.
Qed.

Lemma mul_one (x : float) : (x * 1)%float = x.
Proof.
  apply Prim2SF_inj. rewrite mul_spec. change (Prim2SF 1) with SF_one.
  apply SF64mul_one. apply Prim2SF_valid.
Qed.

Lemma SF64div_diag s m e :
  SF64div (S754_finite s m e) (S754_finite s m e) = SF_one.
Proof.
  unfold SF64div, SFdiv.
  rewrite (SFdiv_core_binary_eval m e m e (-53) 53 9007199254740992 0).
  - rewrite xorb_nilpotent.
    assert (Hloc : new_location (Zpos m) 0 = loc_Exact).
    { unfold new_location. destruct (Z.even (Zpos m)); reflexivity. }
    rewrite Hloc. reflexivity.
  - unfold fexp, SpecFloat.emin, prec, emax. lia.
  - lia.
  - lia.
  - change (2 ^ 53) with 9007199254740992. lia.
  - lia.
Qed.

Lemma div_diag (x : float) :
  finite x = true -> (x =? 0)%float = false -> (x / x)%float = 1%float.
Proof.
  unfold finite. rewrite eqb_spec. change (Prim2SF 0%float) with (S754_zero false).
  intros Hf Hz. apply Prim2SF_inj. rewrite div_spec.
  change (Prim2SF 1) with SF_one.
  destruct (Prim2SF x) as [[] | | | s m e]; try discriminate.
  apply SF64div_diag.
Qed.
End MoreExactOperations.

Section MoreFormulas.
Local Open Scope float_scope.
Import Cxx.
Context `{Libm}.

(** The Exner function of a pressure relative to itself is 1, whatever
    the (finite, non-zero) pressure. *)
Theorem exner_function_same_pressure (pressure : float) :
  (forall y, pow 1 y = 1) -> finite pressure = true -> (pressure =? 0) = false ->
  nzt.exner_function pressure pressure = 1.
Proof.
  intros Hpow Hf Hz. unfold nzt.exner_function. rewrite (div_diag pressure Hf Hz).
  apply Hpow.
Qed.

(** Dry air: with a mixing ratio of 0 the virtual temperature is the
    temperature itself, for every double. *)
Theorem virtual_temperature_dry (temperature : float) :
  nzt.virtual_temperature temperature 0 = temperature.
Proof.
  unfold nzt.virtual_temperature.
  change ((0 + nzt.epsilon) / (nzt.epsilon * (1 + 0))) with 1.
  apply mul_one.
Qed.

(** [lcl_solver] never turns a trial pressure that is a number into a
    NaN. *)
Theorem lcl_solver_keeps_numbers
  (pressure reference_pressure temperature mixing_ratio : float) :
  is_nan pressure = false ->
  is_nan (nzt.lcl_solver pressure reference_pressure temperature mixing_ratio) = false.
Proof.
  intros Hp. unfold nzt.lcl_solver, isnan.
  destruct (is_nan (reference_pressure
                    * pow (nzt.dewpoint_p_r pressure mixing_ratio / temperature)
                        (1.0 / (nzt.Rd / nzt.Cpd)))) eqn:Hnan;
    [exact Hp | exact Hnan].
Qed.
End MoreFormulas.

Lemma exner_function_same_pressure_witness :
  @nzt.exner_function libm_exact_cases 85000 85000 = 1%float.
Proof.
  apply (@exner_function_same_pressure libm_exact_cases 85000).
  - intros y. reflexivity.
  - vm_compute. reflexivity.
  - vm_compute. reflexivity.
Defined.

Lemma lcl_solver_keeps_numbers_witness :
  is_nan (@nzt.lcl_solver libm_exact_cases 85000 85000 283.15 0.008) = false.
Proof.
  apply (@lcl_solver_keeps_numbers libm_exact_cases 85000 85000 283.15 0.008).
  vm_compute. reflexivity.
Defined.

(** ** The result of [fixed_point] *)

Section FixedPointResult.
Local Open Scope float_scope.
Import Cxx.
Context `{Libm} {Args : Type}.
Variable fn : float -> float -> Args -> float.
Variables (eps x0 : float) (args : Args).

Lemma fixed_point_loop_result remaining i p0 :
  (libthermo.fixed_point_loop fn eps x0 args remaining i p0 = (nan, (i + remaining)%nat)
   /\ forall k, (k < remaining)%nat ->
        (snd (libthermo.fixed_point_body fn x0 args
                (Nat.iter k (fun p => fst (libthermo.fixed_point_body fn x0 args p)) p0))
         <? eps) = false)
  \/ (exists k, (k < remaining)%nat
        /\ libthermo.fixed_point_loop fn eps x0 args remaining i p0
           = (fst (libthermo.fixed_point_body fn x0 args
                     (Nat.iter k (fun p => fst (libthermo.fixed_point_body fn x0 args p)) p0)),
              (i + S k)%nat)
        /\ (snd (libthermo.fixed_point_body fn x0 args
                   (Nat.iter k (fun p => fst (libthermo.fixed_point_body fn x0 args p)) p0))
            <? eps) = true
        /\ forall j, (j < k)%nat ->
             (snd (libthermo.fixed_point_body fn x0 args
                     (Nat.iter j (fun p => fst (libthermo.fixed_point_body fn x0 args p)) p0))
              <? eps) = false).
Proof.
  revert i p0. induction remaining as [| n IH]; intros i p0.
  - left. split; [simpl; rewrite Nat.add_0_r; reflexivity | intros k Hk; lia].
  - cbn [libthermo.fixed_point_loop].
    destruct (libthermo.fixed_point_body fn x0 args p0) as [p2 err] eqn:Hbody.
    destruct (err <? eps) eqn:Herr.
    + right. exists 0%nat. cbn [Nat.iter nat_rect]. rewrite Hbody. cbn [fst snd].
      repeat split; [lia | f_equal; lia | exact Herr | intros j Hj; lia].
    + assert (Hshift : forall k,
                Nat.iter (S k) (fun p => fst (libthermo.fixed_point_body fn x0 args p)) p0
                = Nat.iter k (fun p => fst (libthermo.fixed_point_body fn x0 args p)) p2).
      { intros k. rewrite Nat.iter_succ_r, Hbody. reflexivity. }
      destruct (IH (S i) p2) as [[Hnan Hall] | (k & Hk & Hres & Hok & Hbefore)].
      * left. split; [rewrite Hnan; f_equal; lia |].
        intros [| k] Hk.
        -- cbn [Nat.iter nat_rect]. rewrite Hbody. exact Herr.
        -- rewrite Hshift. apply Hall. lia.
      * right. exists (S k). rewrite Hshift.
        repeat split; [lia | rewrite Hres; f_equal; lia | exact Hok |].
        intros [| j] Hj.
        -- cbn [Nat.iter nat_rect]. rewrite Hbody. exact Herr.
        -- rewrite Hshift. apply Hbefore. lia.
Qed.

(** A pass whose error is below [eps] has an estimate that is a number:
    with a NaN estimate the error is a NaN, and no NaN is below [eps]. *)
Lemma fixed_point_success_is_number (p0 : float) :
  (snd (libthermo.fixed_point_body fn x0 args p0) <? eps) = true ->
  is_nan (fst (libthermo.fixed_point_body fn x0 args p0)) = false.
Proof.
  rewrite fixed_point_error_cases.
  generalize (fst (libthermo.fixed_point_body fn x0 args p0)). intros p2 Herr.
  destruct (is_nan p2) eqn:Hnan; [| reflexivity].
  apply is_nan_true_iff in Hnan. subst p2.
  assert (Hrel : fabs ((nan - p0) / p0) = nan).
  { unfold fabs. apply Prim2SF_inj. rewrite abs_spec, div_spec, sub_spec. reflexivity. }
  rewrite Hrel in Herr.
  destruct (truthy p0); rewrite (ltb_nan_l nan eps) in Herr by reflexivity;
    discriminate.
Qed.

(** [fixed_point] returns the accelerated estimate of the first pass whose
    error is below [eps], after that many passes, and that estimate is not
    a NaN; it returns NaN, after [max_iters] passes, exactly when no pass
    within [max_iters] has an error below [eps]. *)
Theorem fixed_point_first_success (max_iters : N) :
  ((libthermo.fixed_point_run fn eps x0 args max_iters = (nan, N.to_nat max_iters)
    /\ forall k, (k < N.to_nat max_iters)%nat -> (pass_error fn x0 args k <? eps) = false)
   \/ (exists k, (k < N.to_nat max_iters)%nat
         /\ libthermo.fixed_point_run fn eps x0 args max_iters
            = (estimate fn x0 args (S k), S k)
         /\ is_nan (estimate fn x0 args (S k)) = false
         /\ (pass_error fn x0 args k <? eps) = true
         /\ forall j, (j < k)%nat -> (pass_error fn x0 args j <? eps) = false))
  /\ (is_nan (libthermo.fixed_point fn eps x0 args max_iters) = true
      <-> forall k, (k < N.to_nat max_iters)%nat ->
            (pass_error fn x0 args k <? eps) = false)
  /\ (libthermo.fixed_point_run fn eps x0 args max_iters = (nan, N.to_nat max_iters)
      <-> forall k, (k < N.to_nat max_iters)%nat ->
            (pass_error fn x0 args k <? eps) = false).
Proof.
  unfold libthermo.fixed_point, libthermo.fixed_point_run.
  destruct (fixed_point_loop_result (N.to_nat max_iters) 0 x0)
    as [[Hnan Hall] | (k & Hk & Hres & Hok & Hbefore)].
  - split; [left; split; [exact Hnan | exact Hall] |].
    split; (split; [intros _; exact Hall | intros _]).
    + rewrite Hnan. reflexivity.
    + exact Hnan.
  - assert (Hnum : is_nan (estimate fn x0 args (S k)) = false)
      by exact (fixed_point_success_is_number _ Hok).
    assert (Hok' : (pass_error fn x0 args k <? eps) = true) by exact Hok.
    assert (Hres' : libthermo.fixed_point_loop fn eps x0 args (N.to_nat max_iters) 0 x0
                    = (estimate fn x0 args (S k), S k)) by exact Hres.
    clear Hres Hok. rewrite Hres'.
    split.
    + right. exists k.
      repeat split; [exact Hk | exact Hnum | exact Hok' | exact Hbefore].
    + split; split.
      * cbn [fst]. intros Hnan. congruence.
      * intros Hall. specialize (Hall k Hk). congruence.
      * intros Heq.
        assert (Hval : estimate fn x0 args (S k) = nan) by (injection Heq; intros; assumption).
        rewrite Hval in Hnum. discriminate.
      * intros Hall. specialize (Hall k Hk). congruence.
Qed.
End FixedPointResult.

Section NumericalCopies.
Local Open Scope float_scope.
Context `{Libm}.

(** The copies of [rk2] and [fixed_point] in the [nzt] namespace compute
    what the templates of [functional.cpp] compute. *)
Theorem numerical_copies_agree
  (rate : float -> float -> float) (x0 x1 y step : float)
  (fn : float -> float -> float -> float -> float) (p a b eps : float) (max_iters : N) :
  nzt.rk2 rate x0 x1 y step = libthermo.rk2 rate x0 x1 y step
  /\ nzt.fixed_point fn p a b eps max_iters
     = libthermo.fixed_point (fun q x ab => fn q x (fst ab) (snd ab)) eps p (a, b) max_iters.
Proof.
  split; [apply nzt_rk2 |].
  unfold nzt.fixed_point, libthermo.fixed_point. rewrite nzt_fixed_point_run. reflexivity.
Qed.
End NumericalCopies.

Section SecondDifference.
Local Open Scope Z_scope.

Lemma one_m_mul m : (one_m * m)%positive = Pos.iter xO m 52.
Proof. reflexivity. Qed.

(** Doubling a finite double, when the result is finite. *)
Lemma SF64mul_two s m e :
  bounded prec emax m e = true ->
  SF64mul SF_two (S754_finite s m e) = S754_infinity s
  \/ (SF64mul SF_two (S754_finite s m e) = S754_finite s m (e + 1)
      /\ bounded prec emax m (e + 1) = true)
  \/ (SF64mul SF_two (S754_finite s m e) = S754_finite s m~0 e
      /\ bounded prec emax m~0 e = true).
Proof.
  intros Hb. pose proof (bounded_cases m e Hb) as [He Hd].
  unfold SF64mul, SF_two, SFmul, binary_round_aux. cbn [xorb].
  rewrite one_m_mul.
  assert (Hcase : Zpos (digits2_pos m) = 53 \/ (e = -1074 /\ Zpos (digits2_pos m) <= 52))
    by lia.
  destruct Hcase as [Hd53 | [-> Hd52]].
  - assert (Hshr : shr_fexp prec emax (Zpos (Pos.iter xO m 52)) (-51 + e) loc_Exact
                   = ({| shr_m := Zpos m; shr_r := false; shr_s := false |}, e + 1)).
    { unfold shr_fexp. cbn [Zdigits2]. rewrite digits2_pos_shift52, Hd53.
      assert (Hs : fexp prec emax (53 + 52 + (-51 + e)) - (-51 + e) = 52).
      { unfold fexp, SpecFloat.emin, prec, emax. lia. }
      rewrite Hs. unfold shr. f_equal; first [reflexivity | lia]. }
    rewrite Hshr.
    cbn [loc_of_shr_record shr_m shr_r shr_s round_nearest_even].
    unfold shr_fexp. cbn [Zdigits2 shr_record_of_loc]. rewrite Hd53.
    assert (Hs : fexp prec emax (53 + (e + 1)) - (e + 1) = 0).
    { unfold fexp, SpecFloat.emin, prec, emax. lia. }
    rewrite Hs. cbn [shr shr_m].
    destruct (e + 1 <=? emax - prec) eqn:Hle.
    + right. left. split; [reflexivity |].
      apply bounded_intro.
      * rewrite Hd53. unfold fexp, SpecFloat.emin, prec, emax. lia.
      * apply Z.leb_le in Hle. unfold emax, prec in Hle. lia.
    + left. reflexivity.
  - assert (Hshr : shr_fexp prec emax (Zpos (Pos.iter xO m 52)) (-51 + -1074) loc_Exact
                   = ({| shr_m := Zpos m~0; shr_r := false; shr_s := false |}, -1074)).
    { unfold shr_fexp. cbn [Zdigits2]. rewrite digits2_pos_shift52.
      assert (Hs : fexp prec emax (Zpos (digits2_pos m) + 52 + (-51 + -1074))
                   - (-51 + -1074) = 51).
      { unfold fexp, SpecFloat.emin, prec, emax. lia. }
      rewrite Hs. unfold shr. reflexivity. }
    rewrite Hshr.
    cbn [loc_of_shr_record shr_m shr_r shr_s round_nearest_even].
    unfold shr_fexp. cbn [Zdigits2 shr_record_of_loc digits2_pos].
    assert (Hs : fexp prec emax (Zpos (Pos.succ (digits2_pos m)) + -1074) - -1074 = 0).
    { rewrite Pos2Z.inj_succ. unfold fexp, SpecFloat.emin, prec, emax. lia. }
    rewrite Hs. cbn [shr shr_m].
    right. right. split; [reflexivity |].
    apply bounded_intro; [| lia].
    cbn [digits2_pos]. rewrite Pos2Z.inj_succ.
    unfold fexp, SpecFloat.emin, prec, emax. lia.
Qed.

Lemma binary_round_canonical s m e :
  bounded prec emax m e = true ->
  binary_round prec emax s m e = S754_finite s m e.
Proof.
  intros Hb. pose proof (bounded_cases m e Hb) as [He Hd].
  unfold binary_round, shl_align.
  assert (Hs : fexp prec emax (Zpos (digits2_pos m) + e) - e = 0).
  { unfold fexp, SpecFloat.emin, prec, emax. lia. }
  change IntDef.Z.sub with Z.sub. change IntDef.Z.add with Z.add.
  rewrite Hs. apply binary_round_aux_canonical. exact Hb.
Qed.

(** [x - 2x] is [-x]. *)
Lemma SF64sub_double s m e r2 :
  bounded prec emax m e = true ->
  r2 = S754_finite s m (e + 1) \/ r2 = S754_finite s m~0 e ->
  SF64sub (S754_finite s m e) r2 = S754_finite (negb s) m e.
Proof.
  intros Hb Hr2. unfold SF64sub.
  destruct Hr2 as [-> | ->]; unfold SFsub, shl_align.
  - change IntDef.Z.min with Z.min. change IntDef.Z.sub with Z.sub.
    replace (Z.min e (e + 1)) with e by lia.
    replace (e - e) with 0 by lia. replace (e - (e + 1)) with (-1) by lia.
    cbn [fst Pos.iter].
    destruct s; cbn [cond_Zopp negb].
    + replace (- Zpos m - - Zpos m~0) with (Zpos m) by lia.
      apply binary_round_canonical. exact Hb.
    + replace (Zpos m - Zpos m~0) with (Zneg m) by lia.
      apply binary_round_canonical. exact Hb.
  - change IntDef.Z.min with Z.min. change IntDef.Z.sub with Z.sub.
    rewrite Z.min_id. replace (e - e) with 0 by lia.
    cbn [fst].
    destruct s; cbn [cond_Zopp negb].
    + replace (- Zpos m - - Zpos m~0) with (Zpos m) by lia.
      apply binary_round_canonical. exact Hb.
    + replace (Zpos m - Zpos m~0) with (Zneg m) by lia.
      apply binary_round_canonical. exact Hb.
Qed.

(** [-x + x] is [+0]. *)
Lemma SF64add_opp s m e :
  SF64add (S754_finite (negb s) m e) (S754_finite s m e) = S754_zero false.
Proof.
  unfold SF64add, SFadd.
  set (t := Zpos (fst (shl_align m e _))).
  assert (Ht : IntDef.Z.add (cond_Zopp (negb s) t) (cond_Zopp s t) = 0).
  { change IntDef.Z.add with Z.add. destruct s; cbn [cond_Zopp negb]; lia. }
  rewrite Ht. reflexivity.
Qed.

Local Open Scope float_scope.

(** The second difference [x - 2x + x] of a constant sequence is [+0]. *)
Lemma second_difference_constant (x : float) :
  finite (2.0 * x) = true -> (x =? 0) = false ->
  Prim2SF (x - 2.0 * x + x) = S754_zero false.
Proof.
  unfold finite. rewrite eqb_spec, add_spec, sub_spec, mul_spec.
  change (Prim2SF 0) with (S754_zero false). change (Prim2SF 2.0) with SF_two.
  pose proof (Prim2SF_valid x) as Hv.
  destruct (Prim2SF x) as [[] | [] | | s m e]; try discriminate.
  cbn [valid_binary SpecFloat.valid_binary] in Hv.
  intros Hf _.
  destruct (SF64mul_two s m e Hv) as [Hinf | [[Hr Hb] | [Hr Hb]]].
  - rewrite Hinf in Hf. discriminate.
  - rewrite Hr. rewrite (SF64sub_double s m e _ Hv (or_introl eq_refl)).
    apply SF64add_opp.
  - rewrite Hr. rewrite (SF64sub_double s m e _ Hv (or_intror eq_refl)).
    apply SF64add_opp.
Qed.
End SecondDifference.

Section FixedPointStart.
Local Open Scope float_scope.
Import Cxx.
Context `{Libm} {Args : Type}.
Variable fn : float -> float -> Args -> float.
Variables (eps x0 : float) (args : Args).

(** Started on a fixed point of the map (finite, not zero, whose double
    does not overflow), with a positive tolerance, [fixed_point] returns
    that point after a single pass. *)
Theorem fixed_point_at_fixed_point (max_iters : N) :
  fn x0 x0 args = x0 -> finite (2.0 * x0) = true -> (x0 =? 0) = false ->
  (0 <? eps) = true -> max_iters <> 0%N ->
  libthermo.fixed_point_run fn eps x0 args max_iters = (x0, 1%nat).
Proof.
  intros Hfix Hfin Hz Heps Hmax.
  assert (Hx0 : finite x0 = true).
  { revert Hfin. unfold finite. rewrite mul_spec. change (Prim2SF 2.0) with SF_two.
    destruct (Prim2SF x0) as [[] | [] | | [] m e]; intros Hf; try reflexivity;
      discriminate. }
  assert (Hbody : libthermo.fixed_point_body fn x0 args x0 = (x0, fabs ((x0 - x0) / x0))).
  { unfold libthermo.fixed_point_body. rewrite !Hfix.
    assert (Hdelta : truthy (x0 - 2.0 * x0 + x0) = false).
    { unfold truthy. rewrite eqb_spec, (second_difference_constant x0 Hfin Hz).
      reflexivity. }
    rewrite Hdelta. unfold truthy. rewrite Hz. reflexivity. }
  assert (Herr : (fabs ((x0 - x0) / x0) <? eps) = true).
  { destruct (zero_div_nonzero (x0 - x0) x0 false (sub_diag x0 Hx0)
                (finite_not_nan x0 Hx0) Hz) as (s & Hq).
    rewrite ltb_spec. unfold fabs. rewrite abs_spec, Hq. cbn [SFabs].
    rewrite ltb_spec in Heps. exact Heps. }
  unfold libthermo.fixed_point_run.
  destruct (N.to_nat max_iters) as [| n] eqn:Hn; [lia |].
  cbn [libthermo.fixed_point_loop]. rewrite Hbody, Herr. reflexivity.
Qed.
End FixedPointStart.

Lemma fixed_point_at_fixed_point_witness :
  @libthermo.fixed_point_run libm_exact_cases unit
    (fun p _ _ => p / 2 + 42500)%float 0.1 85000 tt 50
  = (85000%float, 1%nat).
Proof.
  apply (@fixed_point_at_fixed_point libm_exact_cases unit
           (fun p _ _ => p / 2 + 42500)%float 0.1 85000 tt 50).
  - vm_compute. reflexivity.
  - vm_compute. reflexivity.
  - vm_compute. reflexivity.
  - vm_compute. reflexivity.
  - lia.
Defined.

(** ** NaN in the searches *)

Section SearchNaN.
Local Open Scope Z_scope.
Import Cxx libthermo.

(** When the comparison fails at every element [upper_bound] advances at
    every probe and ends on the last index of the window. *)
Lemma upper_bound_loop_always {T : Type} (cmp : T -> T -> bool)
  (array : list T) (value : T) (len idx : Z) :
  (forall a, In a array -> cmp value a = false) ->
  0 <= idx -> idx + len <= Z.of_nat (length array) -> idx + len < 2 ^ 64 ->
  upper_bound_loop cmp array value len idx = Some (idx + Z.max (len - 1) 0).
Proof.
  intros Hnever.
  funelim (upper_bound_loop cmp array value len idx); intros Hidx Hlen Hmax.
  - f_equal. lia.
  - pose proof (half_bounds len ltac:(lia)) as [Hh1 Hh2].
    rewrite (Hnever a) in * by (eapply nth_error_In; eassumption).
    simpl Z.b2z in *. rewrite Z.mul_1_l in *.
    pose proof (to_size_t_small (idx + Z.quot len 2) ltac:(lia)) as Hs. rewrite Hs in *.
    rewrite H; [f_equal; lia | exact Hnever | lia | lia | lia].
  - pose proof (half_bounds len ltac:(lia)) as [Hh1 Hh2]. read_in_bounds.
Qed.

Lemma leb_nan_l a b : is_nan a = true -> (a <=? b)%float = false.
Proof.
  intros Ha. apply is_nan_true_iff in Ha. subst a. rewrite leb_spec. reflexivity.
Qed.

(** A NaN is sent to the last index by the plain search and to index 0 by
    the inverted one, whatever the profile. *)
Theorem search_sorted_nan_value (x : list float) (value : float) (size : Z) :
  Z.of_nat (length x) = size -> 1 <= size < 2 ^ 31 -> isnan value = true ->
  search_sorted x value size false = Some (size - 1)
  /\ search_sorted x value size true = Some 0.
Proof.
  intros Hlen Hsize Hnan. unfold search_sorted, upper_bound, lower_bound.
  rewrite to_int_small by lia. split.
  - rewrite upper_bound_loop_always; [f_equal; lia | | lia | lia | lia].
    intros a _. apply leb_nan_l. exact Hnan.
  - apply lower_bound_loop_never; [| lia | lia | lia].
    intros a _. apply leb_nan_l. exact Hnan.
Qed.

Lemma search_sorted_nan_value_witness :
  search_sorted [1; 2; 3; 4]%float nan 4 false = Some (4 - 1)
  /\ search_sorted [1; 2; 3; 4]%float nan 4 true = Some 0.
Proof.
  apply (search_sorted_nan_value [1; 2; 3; 4]%float nan 4).
  - reflexivity.
  - lia.
  - vm_compute. reflexivity.
Defined.

(** [lower_bound] is [upper_bound] with the comparison negated and its
    arguments exchanged. *)
Theorem lower_bound_as_upper_bound {T : Type} (cmp : T -> T -> bool)
  (array : list T) (N : Z) (value : T) :
  lower_bound cmp array N value = upper_bound (fun v a => negb (cmp a v)) array N value.
Proof. apply lower_bound_loop_as_upper. Qed.

Lemma search_sorted_inverted_below_size_witness :
  exists idx, search_sorted [4; 3; 2; 1]%float 0.5%float 4 true = Some idx /\ 0 <= idx <= 4 - 1.
Proof.
  apply (search_sorted_inverted_below_size [4; 3; 2; 1]%float 0.5%float 4).
  - reflexivity.
  - lia.
Defined.
End SearchNaN.

Lemma rk2_unordered_single_step_witness :
  libthermo.rk2 (fun _ y => y) 0 1 1 nan
  = Some (snd (midpoint_substep (fun _ y => y) (1 - 0) (0%float, 1%float))).
Proof.
  apply (rk2_unordered_single_step (fun _ y => y) 0 1 1 nan).
  right. vm_compute. reflexivity.
Defined.

(** ** Examples *)

Section Examples.
Local Open Scope float_scope.
Import libthermo.

Example monotonic_examples :
  monotonic [1; 2; 2; 3] increasing = true
  /\ monotonic [1; 3; 2] increasing = false
  /\ monotonic [3; 2; 1] decreasing = true.
Proof. repeat split; vm_compute; reflexivity. Qed.

(** [monotonic] compares adjacent elements with [<] only, so it does not
    notice a NaN. *)
Example monotonic_accepts_nan : monotonic [1; nan; 0] increasing = true.
Proof. vm_compute. reflexivity. Qed.

Example search_sorted_examples :
  search_sorted [1; 2; 3; 4] 2 4 false = Some 1%Z
  /\ search_sorted [1; 2; 3; 4] 2.5 4 false = Some 2%Z
  /\ search_sorted [1; 2; 3; 4] 4 4 false = Some 3%Z
  /\ search_sorted [4; 3; 2; 1] 2.5 4 true = Some 2%Z
  /\ search_sorted [4; 3; 2; 1] 0.5 4 true = Some 3%Z
  /\ search_sorted [] 1 0 false = Some 0%Z.
Proof. repeat split; vm_compute; reflexivity. Qed.

(** Started on a fixed point, the iteration returns it after one pass. *)
Example fixed_point_immediate :
  @fixed_point_run libm_exact_cases unit (fun _ _ _ => 5) 0.1 5 tt 50 = (5, 1%nat).
Proof. vm_compute. reflexivity. Qed.

Example rk2_substep_counts :
  rk2 (fun _ y => y) 0 1 1 1 = Some 2.5
  /\ rk2 (fun _ y => y) 0 (-2500) 1 1000
     = integrate (fun _ y => y) 0 (-2500) 1 1000
  /\ Cxx.size_t_of_double (Cxx.ceil (Cxx.fabs (-2500 - 0) / 1000)) = Some 3%Z
  /\ rk2 (fun _ y => y) 0 1 1 0 = None.
Proof. repeat split; vm_compute; reflexivity. Qed.
End Examples.
